(** * Calculator and Rock-Paper-Scissors: the event handlers of the two
      Tkinter programs, embedded as state transformers.

    - [Py]             the fragment of Python the two programs lean on:
                       exceptions, unbounded integers, binary64 floats (true
                       division, mixed arithmetic, [str], the [.1f] format),
                       a few [str] methods.
    - [PyEval]         the builtin [eval] on the strings the calculator builds.
    - [Calculator]     [CalculatorApp.on_button_click] of calculator.py.
    - [CalculatorSpec] the shape of expressions and conventional arithmetic.
    - [RPS]            [decide_winner] and [RPSApp] of rock_paper_scissors.py.
    - [RPSSpec]        runs of the game, the tally, exact percentages.
    - [PyFacts], [PyEvalFacts], [CalculatorFacts], [RPSFacts]: the proofs.
    - [CalculatorLaws], [RPSLaws]: further properties of the two handlers.

    Widget construction and layout are not state and are left out; a Tk
    [StringVar] is the string it holds. *)

From Stdlib Require Import ZArith QArith List String Ascii Bool Lia.
From Stdlib Require Import SpecFloat DecimalString.
Import ListNotations.

Local Open Scope string_scope.
Local Open Scope Z_scope.

(* ================================================================== *)
(** * Python values and builtins *)
(* ================================================================== *)
Module Py.

(** The exceptions the modelled code can raise.  All three derive from
    [Exception], so an [except Exception] clause catches each of them. *)
Inductive exn := SyntaxError | ZeroDivisionError | OverflowError.

Inductive result (A : Type) : Type :=
| Ok (a : A)
| Raise (e : exn).
Arguments Ok {A} a.
Arguments Raise {A} e.

Definition bind {A B} (r : result A) (k : A -> result B) : result B :=
  match r with
  | Ok a => k a
  | Raise e => Raise e
  end.

Notation "x <- r ;; k" := (bind r (fun x => k))
  (at level 61, r at next level, right associativity).

(** ** Integers and their decimal rendering *)

(** [str(n)] for an [int], without the interpreter's cap on the number of
    digits (see [CalculatorSpec.within_limits]). *)
Definition str_int (z : Z) : string := NilZero.string_of_int (Z.to_int z).

(** ** Floats: IEEE 754 binary64, round to nearest even *)

Definition prec : Z := 53.
Definition emax : Z := 1024.

Definition float := spec_float.

Definition is_inf (f : float) : bool :=
  match f with S754_infinity _ => true | _ => false end.

Definition is_zero (f : float) : bool :=
  match f with S754_zero _ => true | _ => false end.

(** An integer as an exact, unrounded binary value. *)
Definition exact_of_int (z : Z) : float :=
  match z with
  | Z0 => S754_zero false
  | Zpos p => S754_finite false p 0
  | Zneg p => S754_finite true p 0
  end.

(** [float(n)]: the nearest binary64; [OverflowError] when that is out of
    range ("int too large to convert to float"). *)
Definition float_of_int (z : Z) : result float :=
  let f := binary_normalize prec emax z 0 false in
  if is_inf f then Raise OverflowError else Ok f.

(** [a / b] on two ints: the correctly rounded quotient. *)
Definition int_true_divide (a b : Z) : result float :=
  if b =? 0 then Raise ZeroDivisionError
  else
    let f := SFdiv prec emax (exact_of_int a) (exact_of_int b) in
    if is_inf f then Raise OverflowError else Ok f.

(** [x / y] on two floats: only a zero divisor raises. *)
Definition float_div (x y : float) : result float :=
  if is_zero y then Raise ZeroDivisionError else Ok (SFdiv prec emax x y).

Definition float_mul (x y : float) : float := SFmul prec emax x y.
Definition float_add (x y : float) : float := SFadd prec emax x y.
Definition float_sub (x y : float) : float := SFsub prec emax x y.
Definition float_neg (x : float) : float := SFopp x.

(** *** Decimal output of floats *)

Definition sign_str (s : bool) : string := if s then "-" else "".

(** [x / y] rounded to the nearest integer, ties to even ([0 < y]). *)
Definition div_nearest_even (x y : Z) : Z :=
  let q := x / y in
  let r := x mod y in
  match 2 * r ?= y with
  | Lt => q
  | Gt => q + 1
  | Eq => if Z.even q then q else q + 1
  end.

(** [m * 2^e * 10^k] rounded to the nearest integer, ties to even. *)
Definition scaled_nearest (m : positive) (e : Z) (k : Z) : Z :=
  let num := Zpos m * (if 0 <=? e then 2 ^ e else 1) * (if 0 <=? k then 10 ^ k else 1) in
  let den := (if 0 <=? e then 1 else 2 ^ (- e)) * (if 0 <=? k then 1 else 10 ^ (- k)) in
  div_nearest_even num den.

Fixpoint zeros (n : nat) : string :=
  match n with
  | O => ""
  | S n => String "0" (zeros n)
  end.

(** [digits] left-padded with zeros to at least [n] characters. *)
Definition pad_left (n : nat) (digits : string) : string :=
  zeros (n - String.length digits) ++ digits.

(** [format(x, ".1f")]: one digit after the point, correctly rounded from
    the exact binary value. *)
Definition format_1f (x : float) : string :=
  match x with
  | S754_nan => "nan"
  | S754_infinity s => sign_str s ++ "inf"
  | S754_zero s => sign_str s ++ "0.0"
  | S754_finite s m e =>
      let t := scaled_nearest m e 1 in
      sign_str s ++ str_int (t / 10) ++ "." ++ str_int (t mod 10)
  end.

(** The binary64 nearest to [d * 10^k] ([0 < d]). *)
Definition float_of_decimal (d : Z) (k : Z) : float :=
  if 0 <=? k then binary_normalize prec emax (d * 10 ^ k) 0 false
  else SFdiv prec emax (exact_of_int d) (exact_of_int (10 ^ (- k))).

Definition same_finite (x : float) (m : positive) (e : Z) : bool :=
  match x with
  | S754_finite false m' e' => Pos.eqb m m' && Z.eqb e e'
  | _ => false
  end.

(** The number of decimal digits of the integer part: the least [p] with
    [m * 2^e < 10^p], searched upwards from [p0] for at most [fuel] steps. *)
Fixpoint decpt_from (fuel : nat) (m : positive) (e : Z) (p0 : Z) : Z :=
  match fuel with
  | O => p0
  | S fuel' =>
      let below :=
        if 0 <=? p0
        then Zpos m * (if 0 <=? e then 2 ^ e else 1) <? 10 ^ p0 * (if 0 <=? e then 1 else 2 ^ (- e))
        else Zpos m * (if 0 <=? e then 2 ^ e else 1) * 10 ^ (- p0) <? (if 0 <=? e then 1 else 2 ^ (- e)) in
      if below then p0 else decpt_from fuel' m e (p0 + 1)
  end.

Definition decpt (m : positive) (e : Z) : Z := decpt_from 700 m e (-330).

(** With [n] significant digits: the digit string (as an integer) and
    decimal point position of the decimal nearest to [m * 2^e] among those
    that read back as the same float, if there is one. *)
Definition shortest_at (m : positive) (e : Z) (n : Z) : option (Z * Z) :=
  let p := decpt m e in
  let k := n - p in
  let num := Zpos m * (if 0 <=? e then 2 ^ e else 1) * (if 0 <=? k then 10 ^ k else 1) in
  let den := (if 0 <=? e then 1 else 2 ^ (- e)) * (if 0 <=? k then 1 else 10 ^ (- k)) in
  let lo := num / den in
  let hi := lo + 1 in
  let ok d := same_finite (float_of_decimal d (- k)) m e in
  let near := div_nearest_even num den in
  let norm d := if d =? 10 ^ n then (10 ^ (n - 1), p + 1) else (d, p) in
  if ok near then Some (norm near)
  else if ok lo then Some (norm lo)
  else if ok hi then Some (norm hi)
  else None.

Fixpoint shortest_from (fuel : nat) (m : positive) (e : Z) (n : Z) : Z * Z * Z :=
  match fuel with
  | O => (0, 0, n)
  | S fuel' =>
      match shortest_at m e n with
      | Some (d, p) => (d, p, n)
      | None => shortest_from fuel' m e (n + 1)
      end
  end.

(** Drops the trailing zeros a digit string (as an integer) may carry. *)
Fixpoint strip_zeros (fuel : nat) (d : Z) : Z :=
  match fuel with
  | O => d
  | S fuel' => if (d mod 10 =? 0) && negb (d =? 0) then strip_zeros fuel' (d / 10) else d
  end.

(** [repr(x)], which is also [str(x)], for a float: the shortest digit string
    that reads back as [x], in positional notation when the decimal point
    position lies in (-4, 16], and in exponent notation otherwise. *)
Definition str_float (x : float) : string :=
  match x with
  | S754_nan => "nan"
  | S754_infinity s => sign_str s ++ "inf"
  | S754_zero s => sign_str s ++ "0.0"
  | S754_finite s m e =>
      let '(d, p, _) := shortest_from 17 m e 1 in
      let ds := str_int (strip_zeros 17 d) in
      let n := Z.of_nat (String.length ds) in
      sign_str s ++
      (if (-4 <? p) && (p <=? 16) then
         if p <=? 0 then "0." ++ zeros (Z.to_nat (- p)) ++ ds
         else if n <=? p then ds ++ zeros (Z.to_nat (p - n)) ++ ".0"
         else substring 0 (Z.to_nat p) ds ++ "." ++
              substring (Z.to_nat p) (Z.to_nat (n - p)) ds
       else
         let ex := p - 1 in
         substring 0 1 ds ++
         (if 1 <? n then "." ++ substring 1 (Z.to_nat (n - 1)) ds else "") ++
         "e" ++ (if ex <? 0 then "-" else "+") ++ pad_left 2 (str_int (Z.abs ex)))
  end.

(** ** String methods

    Identifiers and labels handled by the programs are ASCII; characters
    outside A-Z and a-z are left as they are.  On ASCII text these are
    Python's methods; Python also folds letters beyond ASCII, so a
    statement about arbitrary strings is made for ASCII text
    ([RPSSpec.is_ascii]). *)

Definition is_upper (c : ascii) : bool :=
  let n := nat_of_ascii c in (65 <=? n)%nat && (n <=? 90)%nat.

Definition is_lower (c : ascii) : bool :=
  let n := nat_of_ascii c in (97 <=? n)%nat && (n <=? 122)%nat.

Definition to_lower (c : ascii) : ascii :=
  if is_upper c then ascii_of_nat (nat_of_ascii c + 32) else c.

Definition to_upper (c : ascii) : ascii :=
  if is_lower c then ascii_of_nat (nat_of_ascii c - 32) else c.

(** [s.lower()] *)
Fixpoint lower (s : string) : string :=
  match s with
  | EmptyString => EmptyString
  | String c s' => String (to_lower c) (lower s')
  end.

(** [s.title()]: a letter that follows a letter is lowered, any other
    letter is capitalised. *)
Fixpoint title_from (previous_is_cased : bool) (s : string) : string :=
  match s with
  | EmptyString => EmptyString
  | String c s' =>
      if is_lower c then
        String (if previous_is_cased then c else to_upper c) (title_from true s')
      else if is_upper c then
        String (if previous_is_cased then to_lower c else c) (title_from true s')
      else String c (title_from false s')
  end.

Definition title (s : string) : string := title_from false s.

(** [x in seq] for a tuple of strings. *)
Definition str_in (x : string) (seq : list string) : bool :=
  existsb (String.eqb x) seq.

End Py.

(* ================================================================== *)
(** * The builtin [eval] on calculator expressions

    A Python [str] is a sequence of code points.  Every character the
    calculator handles lies below U+0100, so a character is the [ascii] of
    its code point and a [str] is a [string].

    [eval] is modelled on the strings made of the characters
    [0-9 + - * / =]: tokenizer, expression grammar, evaluation on [int] and
    [float].  Two operator characters in a row are read one by one, so the
    model agrees with CPython as long as the text holds none of the
    two-character operators [**], [//] and [==]; the calculator never builds
    one (see [CalculatorFacts.reachable_shape]).  Integers are unbounded; the
    interpreter's limits (the cap on the digits of an integer literal and
    of [str], the compiler's recursion allowance) are not part of [eval]:
    a statement that promises a number on the display names them as a
    hypothesis, [CalculatorSpec.within_limits]. *)
(* ================================================================== *)
Module PyEval.
Import Py.

Inductive value :=
| VInt (z : Z)
| VFloat (f : float).

(** [str(v)] *)
Definition str (v : value) : string :=
  match v with
  | VInt z => str_int z
  | VFloat f => str_float f
  end.

(** ** Tokens *)

Inductive token :=
| NUMBER (n : Z)
| PLUS | MINUS | STAR | SLASH | EQUAL.

Definition is_digit (c : ascii) : bool :=
  let n := nat_of_ascii c in (48 <=? n)%nat && (n <=? 57)%nat.

Definition digit_value (c : ascii) : Z := Z.of_nat (nat_of_ascii c - 48).

(** The value of a run of decimal digits, most significant first. *)
Definition decimal_value (text : string) : Z :=
  fold_left (fun acc c => 10 * acc + digit_value c) (list_ascii_of_string text) 0.

Definition all_zeros (text : string) : bool :=
  forallb (Ascii.eqb "0") (list_ascii_of_string text).

(** A decimal integer literal: a run that starts with [0] must be all zeros
    ("leading zeros in decimal integer literals are not permitted"). *)
Definition number (text : string) : result Z :=
  match text with
  | String "0" _ => if all_zeros text then Ok 0 else Raise SyntaxError
  | _ => Ok (decimal_value text)
  end.

Definition operator (c : ascii) : option token :=
  if Ascii.eqb c "+" then Some PLUS
  else if Ascii.eqb c "-" then Some MINUS
  else if Ascii.eqb c "*" then Some STAR
  else if Ascii.eqb c "/" then Some SLASH
  else if Ascii.eqb c "=" then Some EQUAL
  else None.

(** Ends the digit run [pending], if there is one, in front of [ts]. *)
Definition flush (pending : string) (ts : list token) : result (list token) :=
  match pending with
  | EmptyString => Ok ts
  | _ => n <- number pending ;; Ok (NUMBER n :: ts)
  end.

(** Left to right, with the digits of the number being read in [pending]. *)
Fixpoint tokens_from (pending : string) (s : string) : result (list token) :=
  match s with
  | EmptyString => flush pending []
  | String c s' =>
      if is_digit c then tokens_from (pending ++ String c "") s'
      else
        match operator c with
        | Some t => ts <- tokens_from "" s' ;; flush pending (t :: ts)
        | None => Raise SyntaxError
        end
  end.

Definition tokenize (s : string) : result (list token) := tokens_from "" s.

(** ** Syntax

    The expression grammar over these tokens:
    [arith: term (('+'|'-') term)*], [term: factor (('*'|'/') factor)*],
    [factor: ('+'|'-') factor | NUMBER]. *)

Inductive operator_kind := Add | Sub | Mult | Div.
Inductive unaryop := UAdd | USub.

Inductive expr :=
| Constant (n : Z)
| UnaryOp (op : unaryop) (operand : expr)
| BinOp (lhs : expr) (op : operator_kind) (rhs : expr).

(** The left operand and operator waiting for their right operand. *)
Definition pending_op := option (expr * operator_kind).

Definition close (p : pending_op) (rhs : expr) : expr :=
  match p with
  | Some (lhs, op) => BinOp lhs op rhs
  | None => rhs
  end.

(** The prefix signs read before an operand, latest first. *)
Definition apply_signs (signs : list unaryop) (e : expr) : expr :=
  fold_left (fun e op => UnaryOp op e) signs e.

(** One pass over the tokens.  [parse_operand] awaits a factor, with the
    sum [arith] and the product [term] read so far waiting for it;
    [parse_operator] has the product [t] complete up to here. *)
Fixpoint parse_operand (arith term : pending_op) (signs : list unaryop)
         (ts : list token) : result expr :=
  match ts with
  | NUMBER n :: ts' =>
      parse_operator arith (close term (apply_signs signs (Constant n))) ts'
  | PLUS :: ts' => parse_operand arith term (UAdd :: signs) ts'
  | MINUS :: ts' => parse_operand arith term (USub :: signs) ts'
  | _ => Raise SyntaxError
  end
with parse_operator (arith : pending_op) (t : expr) (ts : list token) : result expr :=
  match ts with
  | [] => Ok (close arith t)
  | STAR :: ts' => parse_operand arith (Some (t, Mult)) [] ts'
  | SLASH :: ts' => parse_operand arith (Some (t, Div)) [] ts'
  | PLUS :: ts' => parse_operand (Some (close arith t, Add)) None [] ts'
  | MINUS :: ts' => parse_operand (Some (close arith t, Sub)) None [] ts'
  | _ => Raise SyntaxError
  end.

Definition parse (ts : list token) : result expr := parse_operand None None [] ts.

(** ** Evaluation *)

(** An operand of a float operation: an int is converted first. *)
Definition as_float (v : value) : result float :=
  match v with
  | VInt z => float_of_int z
  | VFloat f => Ok f
  end.

Definition binary (op : operator_kind) (a b : value) : result value :=
  match op, a, b with
  | Add, VInt x, VInt y => Ok (VInt (x + y))
  | Sub, VInt x, VInt y => Ok (VInt (x - y))
  | Mult, VInt x, VInt y => Ok (VInt (x * y))
  | Div, VInt x, VInt y => f <- int_true_divide x y ;; Ok (VFloat f)
  | _, _, _ =>
      x <- as_float a ;;
      y <- as_float b ;;
      match op with
      | Add => Ok (VFloat (float_add x y))
      | Sub => Ok (VFloat (float_sub x y))
      | Mult => Ok (VFloat (float_mul x y))
      | Div => f <- float_div x y ;; Ok (VFloat f)
      end
  end.

Definition unary (op : unaryop) (v : value) : value :=
  match op, v with
  | UAdd, _ => v
  | USub, VInt z => VInt (- z)
  | USub, VFloat f => VFloat (float_neg f)
  end.

Fixpoint eval_expr (e : expr) : result value :=
  match e with
  | Constant n => Ok (VInt n)
  | UnaryOp op operand => v <- eval_expr operand ;; Ok (unary op v)
  | BinOp lhs op rhs =>
      a <- eval_expr lhs ;;
      b <- eval_expr rhs ;;
      binary op a b
  end.

(** [eval(source)]: the text is compiled as a whole, then evaluated. *)
Definition eval (source : string) : result value :=
  ts <- tokenize source ;;
  e <- parse ts ;;
  eval_expr e.

End PyEval.

(* ================================================================== *)
(** * calculator.py *)
(* ================================================================== *)
Module Calculator.
Import Py PyEval.

(** The multiplication and division glyphs on the buttons. *)
Definition times : ascii := ascii_of_nat 215.   (* U+00D7 *)
Definition obelus : ascii := ascii_of_nat 247.  (* U+00F7 *)

(** The string ["+-×÷"]. *)
Definition operators : string :=
  String "+" (String "-" (String times (String obelus ""))).

(** [char in s] for a [char] of length one. *)
Definition char_in (char : ascii) (s : string) : bool :=
  existsb (Ascii.eqb char) (list_ascii_of_string s).

(** [s[-1]], when [s] is not empty. *)
Fixpoint last_char (s : string) : option ascii :=
  match s with
  | EmptyString => None
  | String c EmptyString => Some c
  | String _ s' => last_char s'
  end.

(** [s.endswith(c)] for a [c] of length one. *)
Definition endswith (s : string) (c : ascii) : bool :=
  match last_char s with
  | Some c' => Ascii.eqb c' c
  | None => false
  end.

(** [s.replace(old, new)] for [old] and [new] of length one. *)
Fixpoint replace (old new : ascii) (s : string) : string :=
  match s with
  | EmptyString => EmptyString
  | String c s' => String (if Ascii.eqb c old then new else c) (replace old new s')
  end.

(** The attributes of [CalculatorApp] that the handler reads or writes. *)
Record CalculatorApp : Type := mkApp {
  expression : string;
  input_var : string
}.

(** The state [__init__] sets up. *)
Definition __init__ : CalculatorApp := mkApp "" "0".

(** [char] is the label of the pressed button, a string of length one. *)
Definition on_button_click (self : CalculatorApp) (char : ascii) : CalculatorApp :=
  if char_in char "0123456789" then
    let expression' :=
      if String.eqb (input_var self) "0" || endswith (expression self) "="
      then String char ""
      else expression self ++ String char "" in
    mkApp expression' expression'
  else if char_in char operators then
    match last_char (expression self) with
    | Some c =>
        if negb (char_in c operators)
        then mkApp (expression self ++ String char "") (expression self ++ String char "")
        else self
    | None => self
    end
  else if Ascii.eqb char "C" then
    mkApp "" "0"
  else if Ascii.eqb char "=" then
    let expr := replace obelus "/" (replace times "*" (expression self)) in
    match eval expr with
    | Ok v => mkApp (expression self ++ "=") (str v)
    | Raise _ => mkApp "" "Error"
    end
  else self.

(** The state after pressing the buttons [chars] in turn. *)
Definition presses (self : CalculatorApp) (chars : string) : CalculatorApp :=
  fold_left on_button_click (list_ascii_of_string chars) self.

End Calculator.

(* ================================================================== *)
(** * The calculator's expressions, as the specification reads them *)
(* ================================================================== *)
Module CalculatorSpec.
Import Py PyEval Calculator.

(** ** The shape of the expression string

    What has been typed, read left to right: nothing yet, a digit or an
    operator before any "=" marker, the marker itself, a digit or an
    operator behind the marker. *)
Inductive phase := Empty | Digit | Operator | Marker | DigitAfter | OperatorAfter.

Definition advance (p : phase) (c : ascii) : option phase :=
  if char_in c "0123456789" then
    match p with
    | Empty | Digit | Operator => Some Digit
    | DigitAfter | OperatorAfter => Some DigitAfter
    | Marker => None
    end
  else if char_in c operators then
    match p with
    | Digit => Some Operator
    | Marker | DigitAfter => Some OperatorAfter
    | Empty | Operator | OperatorAfter => None
    end
  else if Ascii.eqb c "=" then
    match p with
    | Digit => Some Marker
    | _ => None
    end
  else None.

Fixpoint scan (p : phase) (s : string) : option phase :=
  match s with
  | EmptyString => Some p
  | String c s' =>
      match advance p c with
      | Some p' => scan p' s'
      | None => None
      end
  end.

(** The phases behind a marker. *)
Definition marked (p : phase) : bool :=
  match p with
  | Marker | DigitAfter | OperatorAfter => true
  | Empty | Digit | Operator => false
  end.

Definition count_marker (s : string) : nat :=
  List.length (filter (Ascii.eqb "=") (list_ascii_of_string s)).

(** The phase tells how the text ends. *)
Definition ends_as (q : phase) (s : string) : Prop :=
  match q with
  | Empty => s = ""
  | Digit | DigitAfter => exists c, last_char s = Some c /\ char_in c "0123456789" = true
  | Operator | OperatorAfter => exists c, last_char s = Some c /\ char_in c operators = true
  | Marker => last_char s = Some "="%char
  end.

(** ** Arithmetic in the conventional reading

    Follows the spec's words: the grammar is "number (operator number)*"
    with the four operators; × and ÷ bind tighter than + and −, and
    operators of the same precedence associate to the left.  Values are
    exact rationals. *)

Inductive arith_op := Plus | Minus | Times | Divide.

Definition glyph (op : arith_op) : ascii :=
  match op with
  | Plus => "+"
  | Minus => "-"
  | Times => times
  | Divide => obelus
  end.

Fixpoint render_rest (rest : list (arith_op * string)) : string :=
  match rest with
  | [] => ""
  | (op, n) :: rest' => String (glyph op) (n ++ render_rest rest')
  end.

(** The text of [first op1 n1 op2 n2 ...]. *)
Definition render (first : string) (rest : list (arith_op * string)) : string :=
  first ++ render_rest rest.

(** A number: one or more decimal digits. *)
Definition is_number (n : string) : bool :=
  negb (String.eqb n "") &&
  forallb (fun c => char_in c "0123456789") (list_ascii_of_string n).

(** A number written without superfluous zeros in front: it does not start
    with [0], or it is nothing but zeros. *)
Definition no_leading_zero (n : string) : bool :=
  match n with
  | String "0" _ => forallb (Ascii.eqb "0") (list_ascii_of_string n)
  | _ => true
  end.

Definition Qvalue (n : string) : Q := inject_Z (decimal_value n).

(** First pass: every run of × and ÷ is folded, left to right, into one
    product; what is left is the first product and the signed products
    after it.  [None] when a divisor is zero. *)
Fixpoint products (current : Q) (rest : list (arith_op * string))
  : option (Q * list (arith_op * Q)) :=
  match rest with
  | [] => Some (current, [])
  | (Times, n) :: rest' => products (current * Qvalue n)%Q rest'
  | (Divide, n) :: rest' =>
      if Qeq_bool (Qvalue n) 0%Q then None else products (current / Qvalue n)%Q rest'
  | (op, n) :: rest' =>
      match products (Qvalue n) rest' with
      | Some (t, l) => Some (current, (op, t) :: l)
      | None => None
      end
  end.

(** Second pass: the products are added and subtracted, left to right. *)
Definition sums (first : Q) (l : list (arith_op * Q)) : Q :=
  fold_left (fun acc '(op, t) => match op with Minus => acc - t | _ => acc + t end)%Q l first.

Definition conventional (first : string) (rest : list (arith_op * string)) : option Q :=
  match products (Qvalue first) rest with
  | Some (t, l) => Some (sums t l)
  | None => None
  end.

(** The exact value [m * 2^e] of a finite positive float. *)
Definition exact_value (m : positive) (e : Z) : Q :=
  (inject_Z (Zpos m) * 2 ^ e)%Q.

(** ** What [eval] is given for a rendered expression *)

(** The text handed to [eval]. *)
Abbreviation prepared s := (replace obelus "/" (replace times "*" s)).

(** The operator character after the two [replace] calls. *)
Definition source_op (op : arith_op) : ascii :=
  match op with
  | Plus => "+"
  | Minus => "-"
  | Times => "*"
  | Divide => "/"
  end.

Fixpoint source_rest (rest : list (arith_op * string)) : string :=
  match rest with
  | [] => ""
  | (op, n) :: rest' => String (source_op op) (n ++ source_rest rest')
  end.

Definition op_token (op : arith_op) : token :=
  match op with
  | Plus => PLUS
  | Minus => MINUS
  | Times => STAR
  | Divide => SLASH
  end.

Fixpoint rest_tokens (rest : list (arith_op * string)) : list token :=
  match rest with
  | [] => []
  | (op, n) :: rest' => op_token op :: NUMBER (decimal_value n) :: rest_tokens rest'
  end.

(** An operand written without superfluous zeros, a step whose operand is
    one, a step other than a division, a division by zero. *)
Definition plain_number (n : string) : bool := is_number n && no_leading_zero n.

Definition plain_step (step : arith_op * string) : bool := plain_number (snd step).

Definition not_division (step : arith_op * string) : bool :=
  match fst step with
  | Divide => false
  | _ => true
  end.

Definition zero_divisor (step : arith_op * string) : bool :=
  match fst step with
  | Divide => Qeq_bool (Qvalue (snd step)) 0
  | _ => false
  end.

(** The exact value of a syntax tree, in rational arithmetic. *)
Fixpoint exact (e : expr) : Q :=
  match e with
  | Constant n => inject_Z n
  | UnaryOp UAdd operand => exact operand
  | UnaryOp USub operand => - exact operand
  | BinOp lhs Add rhs => exact lhs + exact rhs
  | BinOp lhs Sub rhs => exact lhs - exact rhs
  | BinOp lhs Mult rhs => exact lhs * exact rhs
  | BinOp lhs Div rhs => exact lhs / exact rhs
  end%Q.

Fixpoint division_free (e : expr) : bool :=
  match e with
  | Constant _ => true
  | UnaryOp _ operand => division_free operand
  | BinOp lhs Div rhs => false
  | BinOp lhs _ rhs => division_free lhs && division_free rhs
  end.

(** Some division in the tree has the literal 0 as its divisor. *)
Fixpoint divides_by_zero (e : expr) : bool :=
  match e with
  | Constant _ => false
  | UnaryOp _ operand => divides_by_zero operand
  | BinOp lhs op rhs =>
      divides_by_zero lhs || divides_by_zero rhs ||
      match op, rhs with
      | Div, Constant 0 => true
      | _, _ => false
      end
  end.

(** What the sum read so far makes of the value of the current product. *)
Inductive pending_sum : pending_op -> (Q -> Q) -> Prop :=
| sum_none : pending_sum None (fun t => t)
| sum_add lhs : pending_sum (Some (lhs, Add)) (fun t => exact lhs + t)%Q
| sum_sub lhs : pending_sum (Some (lhs, Sub)) (fun t => exact lhs - t)%Q.

(** ** Conventional arithmetic on Python's numbers

    Follows the spec's words, as [conventional] does, in two passes: every
    run of × and ÷ is folded left to right, then the products are added
    and subtracted left to right.  The numbers are Python's: each
    operation is [binary], exact on two ints for +, − and ×, a true
    division rounded to binary64 for ÷, binary64 arithmetic as soon as an
    operand is a float; it raises on a zero divisor and on an int too
    large for a float. *)

Fixpoint products_py (current : value) (rest : list (arith_op * string))
  : result (value * list (arith_op * value)) :=
  match rest with
  | [] => Ok (current, [])
  | (Times, n) :: rest' =>
      v <- binary Mult current (VInt (decimal_value n)) ;; products_py v rest'
  | (Divide, n) :: rest' =>
      v <- binary Div current (VInt (decimal_value n)) ;; products_py v rest'
  | (op, n) :: rest' =>
      tl <- products_py (VInt (decimal_value n)) rest' ;;
      Ok (current, (op, fst tl) :: snd tl)
  end.

Fixpoint sums_py (acc : value) (l : list (arith_op * value)) : result value :=
  match l with
  | [] => Ok acc
  | (Minus, t) :: l' => v <- binary Sub acc t ;; sums_py v l'
  | (_, t) :: l' => v <- binary Add acc t ;; sums_py v l'
  end.

Definition conventional_py (first : string) (rest : list (arith_op * string)) : result value :=
  tl <- products_py (VInt (decimal_value first)) rest ;;
  sums_py (fst tl) (snd tl).

(** What holds between the value [t0] of the first product, the sum
    [arith] waiting in front of it, and their combination [s]. *)
Definition pending_value (arith : pending_op) (t0 s : value) : Prop :=
  match arith with
  | None => s = t0
  | Some (lhs, op) => exists a, eval_expr lhs = Ok a /\ binary op a t0 = Ok s
  end.

(** ** The interpreter's limits

    CPython refuses what [PyEval] accepts in three cases, all of which end
    in the handler's [except]: an integer literal of more than 4300
    digits, [str] of an integer of more than 4300 digits (the default
    [sys.int_max_str_digits]), and a chain of operators too long for the
    compiler's recursion allowance (some 3000 under the default recursion
    limit, less the depth of the call).  An expression within the limits
    stays clear of all three. *)
Definition int_max_str_digits : Z := 4300.
Definition max_operators : nat := 1000.

Definition printable (v : value) : bool :=
  match v with
  | VInt z => Z.abs z <? 10 ^ int_max_str_digits
  | VFloat _ => true
  end.

Definition short_number (n : string) : bool :=
  Z.of_nat (String.length n) <=? int_max_str_digits.

Definition within_limits (first : string) (rest : list (arith_op * string)) : bool :=
  (List.length rest <? max_operators)%nat &&
  short_number first &&
  forallb (fun step => short_number (snd step)) rest &&
  match conventional_py first rest with
  | Ok v => printable v
  | Raise _ => true
  end.

(** ** The display, and what a user types *)

(** What the display can show: the expression itself, the zero placeholder
    or the error token over an empty expression, or the result of the
    expression that stands before the marker. *)
Definition display_ok (self : CalculatorApp) : Prop :=
  input_var self = expression self \/
  (expression self = "" /\ (input_var self = "0" \/ input_var self = "Error")) \/
  (exists body v,
      expression self = body ++ "=" /\
      eval (prepared body) = Ok v /\
      input_var self = str v).

Definition digit_or_operator (c : ascii) : bool :=
  char_in c "0123456789" || char_in c operators.

(** A first operand as it can be typed: the single digit 0, or digits that
    do not start with 0. *)
Definition typed_first (n : string) : bool :=
  is_number n &&
  match n with
  | String "0" EmptyString => true
  | String "0" _ => false
  | _ => true
  end.

Definition number_step (step : arith_op * string) : bool := is_number (snd step).

(** The expression is on display, holds a marker and does not end with it. *)
Definition stale (self : CalculatorApp) : Prop :=
  input_var self = expression self /\
  In "="%char (list_ascii_of_string (expression self)) /\
  endswith (expression self) "=" = false.

End CalculatorSpec.

(* ================================================================== *)
(** * rock_paper_scissors.py *)
(* ================================================================== *)
Module RPS.
Import Py.

Definition CHOICES : list string := ["rock"; "paper"; "scissors"].

(** The [wins_over] dict and its [get]. *)
Definition wins_over : list (string * string) :=
  [("rock", "scissors"); ("paper", "rock"); ("scissors", "paper")].

Fixpoint dict_get (d : list (string * string)) (k : string) : option string :=
  match d with
  | [] => None
  | (k', v) :: d' => if String.eqb k k' then Some v else dict_get d' k
  end.

(** [wins_over.get(p) == c]: [None] equals no string. *)
Definition get_equals (o : option string) (c : string) : bool :=
  match o with
  | Some v => String.eqb v c
  | None => false
  end.

Definition decide_winner (player computer : string) : string :=
  let p := lower player in
  let c := lower computer in
  if String.eqb p c then "tie"
  else if get_equals (dict_get wins_over p) c then "win" else "lose".

(** The attributes of [RPSApp] that the handlers read or write. *)
Record RPSApp : Type := mkApp {
  player_score : Z;
  computer_score : Z;
  ties : Z;
  total_rounds : Z;
  score_var : string;
  detailed_stats_var : string;
  result_var : string;
  computer_var : string
}.

Definition set_counters (st : RPSApp) (p c t n : Z) : RPSApp :=
  mkApp p c t n (score_var st) (detailed_stats_var st) (result_var st) (computer_var st).
Definition set_score_var (st : RPSApp) (s : string) : RPSApp :=
  mkApp (player_score st) (computer_score st) (ties st) (total_rounds st)
        s (detailed_stats_var st) (result_var st) (computer_var st).
Definition set_detailed_stats_var (st : RPSApp) (s : string) : RPSApp :=
  mkApp (player_score st) (computer_score st) (ties st) (total_rounds st)
        (score_var st) s (result_var st) (computer_var st).
Definition set_result_var (st : RPSApp) (s : string) : RPSApp :=
  mkApp (player_score st) (computer_score st) (ties st) (total_rounds st)
        (score_var st) (detailed_stats_var st) s (computer_var st).
Definition set_computer_var (st : RPSApp) (s : string) : RPSApp :=
  mkApp (player_score st) (computer_score st) (ties st) (total_rounds st)
        (score_var st) (detailed_stats_var st) (result_var st) s.

Definition _format_score (st : RPSApp) : string :=
  "Player: " ++ str_int (player_score st) ++ "   Computer: " ++ str_int (computer_score st).

(** The text between "Win Rate: " and "%" is kept apart so that statements
    can name it. *)
Definition stats_line (wins losses tie total : Z) (rate : string) : string :=
  "Wins: " ++ str_int wins ++ " | Losses: " ++ str_int losses ++ " | " ++
  "Ties: " ++ str_int tie ++ " | Total: " ++ str_int total ++
  " | Win Rate: " ++ rate ++ "%".

(** [(player_score / total_rounds) * 100], as Python computes it: a true
    division of two ints, then a float product with [float(100)]. *)
Definition win_rate (st : RPSApp) : result float :=
  q <- int_true_divide (player_score st) (total_rounds st) ;;
  h <- float_of_int 100 ;;
  Ok (float_mul q h).

Definition _format_detailed_stats (st : RPSApp) : result string :=
  if total_rounds st =? 0 then
    Ok "Wins: 0 | Losses: 0 | Ties: 0 | Total: 0 | Win Rate: 0.0%"
  else
    r <- win_rate st ;;
    Ok (stats_line (player_score st) (computer_score st) (ties st) (total_rounds st)
                   (format_1f r)).

(** What a handler does besides updating the attributes. *)
Inductive effect :=
| showerror (title message : string)   (* messagebox.showerror: a modal dialog *)
| uncaught (e : exn).                  (* an exception leaving the handler *)

(** [self.detailed_stats_var.set(self._format_detailed_stats())] *)
Definition update_detailed_stats (st : RPSApp) : RPSApp * list effect :=
  match _format_detailed_stats st with
  | Ok s => (set_detailed_stats_var st s, [])
  | Raise e => (st, [uncaught e])
  end.

(** [random.choice(seq)] picks [seq[i]] for a random index; [r] is the
    random number the call consumes. *)
Definition random_choice (r : nat) (seq : list string) : string :=
  nth (r mod List.length seq) seq "".

Definition play (st : RPSApp) (player_choice : string) (r : nat) : RPSApp * list effect :=
  if negb (str_in player_choice CHOICES) then
    (st, [showerror "Invalid move" ("'" ++ player_choice ++ "' is not a valid choice.")])
  else
    let computer_choice := random_choice r CHOICES in
    let outcome := decide_winner player_choice computer_choice in
    let st := set_counters st (player_score st) (computer_score st) (ties st)
                              (total_rounds st + 1) in
    let st :=
      if String.eqb outcome "win" then
        set_result_var
          (set_counters st (player_score st + 1) (computer_score st) (ties st) (total_rounds st))
          "You win this round! 🎉"
      else if String.eqb outcome "lose" then
        set_result_var
          (set_counters st (player_score st) (computer_score st + 1) (ties st) (total_rounds st))
          "You lose this round. 😢"
      else
        set_result_var
          (set_counters st (player_score st) (computer_score st) (ties st + 1) (total_rounds st))
          "It's a tie. 😐" in
    let st := set_computer_var st ("Computer chose: " ++ title computer_choice) in
    let st := set_score_var st (_format_score st) in
    update_detailed_stats st.

Definition reset_score (st : RPSApp) : RPSApp * list effect :=
  let st := set_counters st 0 0 0 0 in
  match _format_detailed_stats st with
  | Raise e => (set_score_var st (_format_score st), [uncaught e])
  | Ok s =>
      let st := set_score_var st (_format_score st) in
      let st := set_detailed_stats_var st s in
      let st := set_result_var st "Scores reset. Make your move!" in
      let st := set_computer_var st "Computer hasn't played yet." in
      (st, [])
  end.

(** The game state and Tk variables as [__init__] sets them up. *)
Definition __init__ : result RPSApp :=
  let st := mkApp 0 0 0 0 "" "" "" "" in
  let score := _format_score st in
  stats <- _format_detailed_stats st ;;
  Ok (mkApp 0 0 0 0 score stats "Make your move!" "Computer hasn't played yet.").

End RPS.

(* ================================================================== *)
(** * Runs of the game, and what the specification says of them *)
(* ================================================================== *)
Module RPSSpec.
Import Py RPS.

(** A call the event loop can deliver to the application. *)
Inductive call :=
| Play (player_choice : string) (r : nat)
| Reset.

Definition handle (st : RPSApp) (c : call) : RPSApp * list effect :=
  match c with
  | Play player_choice r => play st player_choice r
  | Reset => reset_score st
  end.

(** The state after a sequence of calls, with every effect along the way. *)
Fixpoint run (st : RPSApp) (cs : list call) : RPSApp * list effect :=
  match cs with
  | [] => (st, [])
  | c :: cs' =>
      let '(st1, out1) := handle st c in
      let '(st2, out2) := run st1 cs' in
      (st2, (out1 ++ out2)%list)
  end.

Definition initial : RPSApp :=
  mkApp 0 0 0 0
        "Player: 0   Computer: 0"
        "Wins: 0 | Losses: 0 | Ties: 0 | Total: 0 | Win Rate: 0.0%"
        "Make your move!"
        "Computer hasn't played yet.".

Definition is_uncaught (e : effect) : bool :=
  match e with uncaught _ => true | showerror _ _ => false end.

(** [a] beats [b] in the cyclic table. *)
Definition beats (a b : string) : Prop :=
  (a = "rock" /\ b = "scissors") \/
  (a = "paper" /\ b = "rock") \/
  (a = "scissors" /\ b = "paper").

(** ** The tally invariant *)

Record tally (st : RPSApp) : Prop := {
  tally_wins : 0 <= player_score st;
  tally_losses : 0 <= computer_score st;
  tally_ties : 0 <= ties st;
  tally_total : total_rounds st = player_score st + computer_score st + ties st;
  tally_stats : _format_detailed_stats st = Ok (detailed_stats_var st)
}.

(** *** The win rate in exact arithmetic

    Follows the spec's words: [player_wins / total_rounds * 100] rounded to
    one decimal place, as a number of tenths of a percent, with a tie going
    to the even digit or upwards. *)
Definition exact_tenths_half_even (wins total : Z) : Z :=
  div_nearest_even (1000 * wins) total.

Definition exact_tenths_half_up (wins total : Z) : Z :=
  (2000 * wins + total) / (2 * total).

Definition one_decimal (tenths : Z) : string :=
  str_int (tenths / 10) ++ "." ++ str_int (tenths mod 10).

(** 23 wins and 57 losses: rock against scissors, then rock against paper. *)
Definition rounds_23_of_80 : list call :=
  (repeat (Play "rock" 2) 23 ++ repeat (Play "rock" 1) 57)%list.

(** ** Rounds and their outcomes *)

(** What a round gives the player: [decide_winner] on the player's choice
    and the computer's draw. *)
Definition outcome_of (c : call) : string :=
  match c with
  | Play player_choice r => decide_winner player_choice (random_choice r CHOICES)
  | Reset => ""
  end.

(** The rounds with a valid choice played since the last reset, the calls
    being read in order from [played]. *)
Definition rounds_since_reset (played : list call) (cs : list call) : list call :=
  fold_left (fun acc c =>
               match c with
               | Reset => []
               | Play player_choice _ =>
                   if str_in player_choice CHOICES then (acc ++ [c])%list else acc
               end) cs played.

Definition bump (b : bool) : Z := if b then 1 else 0.

Definition count_outcome (o : string) (rounds : list call) : Z :=
  Z.of_nat (List.length (filter (fun c => String.eqb (outcome_of c) o) rounds)).

(** The texts the round-result and computer-move labels can hold. *)
Definition result_texts : list string :=
  ["Make your move!"; "Scores reset. Make your move!";
   "You win this round! 🎉"; "You lose this round. 😢"; "It's a tie. 😐"].

Definition computer_texts : list string :=
  ["Computer hasn't played yet."; "Computer chose: Rock";
   "Computer chose: Paper"; "Computer chose: Scissors"].

(** ** The bindings of [__init__]

    The three choice buttons, the two control buttons, and the key
    bindings r, p, s, q and Command-r; an event here is a binding that
    fires. *)
Inductive ui_event :=
| ButtonRock | ButtonPaper | ButtonScissors
| ButtonReset | ButtonQuit
| KeyR | KeyP | KeyS | KeyQ | CommandR.

(** What the bound callback calls. *)
Inductive command :=
| call_play (choice : string)
| call_reset_score
| call_on_quit.

Definition binding (ev : ui_event) : command :=
  match ev with
  | ButtonRock | KeyR => call_play "rock"
  | ButtonPaper | KeyP => call_play "paper"
  | ButtonScissors | KeyS => call_play "scissors"
  | ButtonReset | CommandR => call_reset_score
  | ButtonQuit | KeyQ => call_on_quit
  end.

(** [root.mainloop()]: the events are handled in turn, each play with the
    random number its draw consumes, until [on_quit] stops the loop. *)
Fixpoint mainloop (st : RPSApp) (events : list (ui_event * nat)) : RPSApp * list effect :=
  match events with
  | [] => (st, [])
  | (ev, r) :: events' =>
      match binding ev with
      | call_on_quit => (st, [])
      | call_play choice =>
          let '(st1, out1) := play st choice r in
          let '(st2, out2) := mainloop st1 events' in
          (st2, (out1 ++ out2)%list)
      | call_reset_score =>
          let '(st1, out1) := reset_score st in
          let '(st2, out2) := mainloop st1 events' in
          (st2, (out1 ++ out2)%list)
      end
  end.

(** ** Invariants of a game *)

Record counted (st : RPSApp) (rounds : list call) : Prop := {
  counted_wins : player_score st = count_outcome "win" rounds;
  counted_losses : computer_score st = count_outcome "lose" rounds;
  counted_ties : ties st = count_outcome "tie" rounds;
  counted_total : total_rounds st = Z.of_nat (List.length rounds)
}.

Record labelled (st : RPSApp) : Prop := {
  labelled_score : score_var st = _format_score st;
  labelled_result : In (result_var st) result_texts;
  labelled_computer : In (computer_var st) computer_texts
}.

(** ** ASCII text

    A string all of whose characters are below U+0080.  On such text
    [Py.lower] is [str.lower]: only A-Z change. *)
Definition is_ascii (s : string) : bool :=
  forallb (fun c => (nat_of_ascii c <? 128)%nat) (list_ascii_of_string s).

End RPSSpec.

(* ================================================================== *)
(** * Range of the true division

    [a / b] cannot overflow when [0 <= a <= b]: the rounded quotient is at
    most one.  The argument follows the two shifts of [binary_round_aux]
    and bounds the exponent by the number of binary digits. *)
(* ================================================================== *)
Module PyFacts.
Import Py.

Lemma digits2_log2 p : Zpos (digits2_pos p) = Z.log2 (Zpos p) + 1.
Proof.
  assert (E : forall q, digits2_pos q = Pos.size q) by (induction q; simpl; congruence).
  rewrite E. destruct p; simpl; lia.
Qed.

Lemma Zdigits2_nonneg m : 0 <= Zdigits2 m.
Proof. destruct m; simpl; lia. Qed.

Lemma Zdigits2_le_pow m k : 0 <= k -> 0 <= m <= 2 ^ k -> Zdigits2 m <= k + 1.
Proof.
  intros Hk [H0 Hm]. destruct m as [|p|p]; simpl; try lia.
  rewrite digits2_log2.
  pose proof (Z.log2_le_mono _ _ Hm) as L. rewrite Z.log2_pow2 in L; lia.
Qed.

Lemma Zdigits2_succ m : 0 <= m -> Zdigits2 (m + 1) <= Zdigits2 m + 1.
Proof.
  intros H. destruct m as [|p|p]; try lia; [reflexivity|].
  change (Zpos p + 1) with (Zpos (p + 1)). unfold Zdigits2.
  rewrite !digits2_log2.
  assert (L : Z.log2 (Zpos (p + 1)) <= Z.log2 (2 * Zpos p)) by (apply Z.log2_le_mono; lia).
  rewrite Z.log2_double in L; lia.
Qed.

Lemma shr_1_digits mrs :
  0 <= shr_m mrs ->
  0 <= shr_m (shr_1 mrs) /\
  Zdigits2 (shr_m (shr_1 mrs)) = Z.max 0 (Zdigits2 (shr_m mrs) - 1).
Proof.
  destruct mrs as [m r s]. cbn [shr_m]. intros H.
  destruct m as [|[p|p|]|p]; cbn [shr_1 shr_m Zdigits2 digits2_pos];
    try rewrite Pos2Z.inj_succ; lia.
Qed.

Lemma iter_shr_1_digits p : forall mrs,
  0 <= shr_m mrs ->
  0 <= shr_m (iter_pos shr_1 p mrs) /\
  Zdigits2 (shr_m (iter_pos shr_1 p mrs)) = Z.max 0 (Zdigits2 (shr_m mrs) - Zpos p).
Proof.
  induction p as [p IH|p IH|]; intros mrs H; simpl iter_pos.
  - destruct (shr_1_digits mrs H) as [A1 A2].
    destruct (IH _ A1) as [B1 B2]. destruct (IH _ B1) as [C1 C2].
    split; [assumption|]. rewrite C2, B2, A2. lia.
  - destruct (IH _ H) as [B1 B2]. destruct (IH _ B1) as [C1 C2].
    split; [assumption|]. rewrite C2, B2. lia.
  - apply shr_1_digits, H.
Qed.

Lemma shr_fexp_bounds m e l m' e' :
  0 <= m ->
  shr_fexp prec emax m e l = (m', e') ->
  0 <= shr_m m' /\
  e' <= Z.max e (fexp prec emax (Zdigits2 m + e)) /\
  Zdigits2 (shr_m m') + e' <= Z.max (Zdigits2 m + e) (fexp prec emax (Zdigits2 m + e)).
Proof.
  intros Hm. unfold shr_fexp, shr.
  assert (R : shr_m (shr_record_of_loc m l) = m) by (destruct l as [|[]]; reflexivity).
  destruct (fexp prec emax (Zdigits2 m + e) - e) as [|n|n] eqn:E; intros H; inversion H; subst; clear H.
  - rewrite R. repeat split; lia.
  - destruct (iter_shr_1_digits n (shr_record_of_loc m l)) as [A B]; [rewrite R; lia|].
    rewrite B, R. repeat split; lia.
  - rewrite R. repeat split; lia.
Qed.

Lemma round_nearest_even_bounds m l :
  0 <= m ->
  0 <= round_nearest_even m l /\ Zdigits2 (round_nearest_even m l) <= Zdigits2 m + 1.
Proof.
  intros H. pose proof (Zdigits2_succ m H). pose proof (Zdigits2_nonneg m).
  unfold round_nearest_even. destruct l as [|[]]; try destruct (Z.even m); split; lia.
Qed.

Lemma binary_round_aux_finite sx mx ex lx :
  0 <= mx -> ex <= 971 -> Zdigits2 mx + ex <= 1023 ->
  is_inf (binary_round_aux prec emax sx mx ex lx) = false.
Proof.
  intros Hm He Hd. unfold binary_round_aux.
  destruct (shr_fexp prec emax mx ex lx) as [m1 e1] eqn:E1.
  destruct (shr_fexp_bounds _ _ _ _ _ Hm E1) as (A1 & A2 & A3).
  destruct (round_nearest_even_bounds (shr_m m1) (loc_of_shr_record m1) A1) as [R1 R2].
  destruct (shr_fexp prec emax (round_nearest_even (shr_m m1) (loc_of_shr_record m1)) e1 loc_Exact)
    as [m2 e2] eqn:E2.
  destruct (shr_fexp_bounds _ _ _ _ _ R1 E2) as (B1 & B2 & B3).
  destruct (shr_m m2) as [|q|q]; try reflexivity.
  assert (e2 <= emax - prec).
  { unfold fexp, emin, prec, emax in *. lia. }
  apply Z.leb_le in H. rewrite H. reflexivity.
Qed.

Lemma int_true_divide_fraction p n :
  0 <= p <= n -> 0 < n -> exists f, int_true_divide p n = Ok f.
Proof.
  intros [Hp Hpn] Hn. unfold int_true_divide.
  destruct (Z.eqb_spec n 0) as [|_]; [lia|].
  destruct n as [|mn|mn]; try lia.
  destruct p as [|mp|mp]; try lia; simpl exact_of_int.
  - eexists; reflexivity.
  - unfold SFdiv.
    destruct (SFdiv_core_binary prec emax (Zpos mp) 0 (Zpos mn) 0) as [[mz ez] lz] eqn:E.
    rewrite binary_round_aux_finite; [eexists; reflexivity | | | ].
    all: unfold SFdiv_core_binary in E.
    all: set (d := Z.min _ _) in E.
    all: assert (Hd : d <= 0) by (subst d; lia).
    all: assert (Hq : 0 <= (match (0 - 0 - d) with Zpos _ => Z.shiftl (Zpos mp) (0 - 0 - d) | Z0 => Zpos mp | Zneg _ => 0 end) / Zpos mn <= 2 ^ (- d)).
    all: try (destruct (0 - 0 - d) as [|s|s] eqn:S; try lia;
        [ replace (- d) with 0 by lia; split; [apply Z.div_pos; lia| apply Z.div_le_upper_bound; lia]
        | rewrite Z.shiftl_mul_pow2 by lia; replace (- d) with (Zpos s) by lia;
          split; [apply Z.div_pos; lia | apply Z.div_le_upper_bound; [lia|]; nia] ]).
    all: unfold Z.div in Hq; destruct (Z.div_eucl _ (Zpos mn)) as [q r]; inversion E; subst mz ez lz; simpl fst in Hq.
    + lia.
    + lia.
    + pose proof (Zdigits2_le_pow q (- d)). lia.
Qed.

Lemma float_of_int_100 : float_of_int 100 = Ok (S754_finite false 7036874417766400 (-46)).
Proof. reflexivity. Qed.

End PyFacts.

(* ================================================================== *)
(** * Properties of the [eval] model *)
(* ================================================================== *)
Module PyEvalFacts.
Import Py PyEval.

(** The tokenizer and the parser raise nothing but [SyntaxError]. *)
Lemma flush_raise pending ts e : flush pending ts = Raise e -> e = SyntaxError.
Proof.
  destruct pending as [|c p]; [discriminate|]. unfold flush, number.
  destruct (Ascii.eqb_spec c "0") as [->|N].
  - destruct (all_zeros _); cbn; congruence.
  - destruct c as [[] [] [] [] [] [] [] []]; cbn; congruence.
Qed.

Lemma tokens_from_raise s : forall pending e,
  tokens_from pending s = Raise e -> e = SyntaxError.
Proof.
  induction s as [|c s IH]; intros pending e; cbn [tokens_from].
  - apply flush_raise.
  - destruct (is_digit c); [apply IH|].
    destruct (operator c); [|congruence].
    destruct (tokens_from "" s) eqn:E; cbn [bind].
    + apply flush_raise.
    + intros [= <-]. eapply IH, E.
Qed.

Lemma flush_In pending ts ts' t : flush pending ts = Ok ts' -> In t ts -> In t ts'.
Proof.
  destruct pending; cbn [flush].
  - intros [= <-]. auto.
  - destruct (number _); cbn [bind]; [|discriminate]. intros [= <-] H. now right.
Qed.

Lemma is_digit_not_equal c : is_digit c = true -> c <> "="%char.
Proof. intros H ->. discriminate H. Qed.

(** An [=] in the text puts an [EQUAL] among the tokens. *)
Lemma tokens_from_equal s : forall pending ts,
  tokens_from pending s = Ok ts ->
  In "="%char (list_ascii_of_string s) -> In EQUAL ts.
Proof.
  induction s as [|c s IH]; intros pending ts; cbn [tokens_from list_ascii_of_string].
  - intros _ [].
  - destruct (is_digit c) eqn:D.
    + intros H [E|I]; [now apply is_digit_not_equal in D | eapply IH; eauto].
    + destruct (operator c) as [t|] eqn:O; [|discriminate].
      destruct (tokens_from "" s) as [ts0|] eqn:E; cbn [bind]; [|discriminate].
      intros F [C|I].
      * subst c. cbv in O. injection O as <-. eapply flush_In; [exact F | now left].
      * eapply flush_In; [exact F | right; eapply IH; eauto].
Qed.

(** No expression holds an [EQUAL]. *)
Lemma parse_equal ts :
  In EQUAL ts ->
  (forall arith term signs, parse_operand arith term signs ts = Raise SyntaxError) /\
  (forall arith t, parse_operator arith t ts = Raise SyntaxError).
Proof.
  induction ts as [|tok ts IH]; [intros []|].
  intros [->|I]; [split; reflexivity|].
  destruct (IH I) as [IH1 IH2].
  split; intros; destruct tok; cbn [parse_operand parse_operator]; auto.
Qed.

Lemma eval_equal s :
  In "="%char (list_ascii_of_string s) -> eval s = Raise SyntaxError.
Proof.
  intros H. unfold eval, tokenize.
  destruct (tokens_from "" s) as [ts|e] eqn:E; cbn [bind].
  - unfold parse. rewrite (proj1 (parse_equal ts (tokens_from_equal _ _ _ E H))). reflexivity.
  - now rewrite (tokens_from_raise _ _ _ E).
Qed.

(** A text that ends with an operator character is not an expression. *)
Lemma flush_last pending ts ts' t :
  flush pending (ts ++ [t]) = Ok ts' -> exists ts0, ts' = (ts0 ++ [t])%list.
Proof.
  destruct pending; cbn [flush].
  - intros [= <-]. now exists ts.
  - destruct (number _) as [n|]; cbn [bind]; [|discriminate].
    intros [= <-]. now exists (NUMBER n :: ts).
Qed.

Lemma tokens_from_last s c t : forall pending ts,
  operator c = Some t ->
  tokens_from pending (s ++ String c "") = Ok ts -> exists ts0, ts = (ts0 ++ [t])%list.
Proof.
  intros pending ts O. revert pending ts.
  assert (D : is_digit c = false).
  { destruct (is_digit c) eqn:D; [|reflexivity].
    destruct c as [[] [] [] [] [] [] [] []]; cbv in D, O; congruence. }
  induction s as [|d s IH]; intros pending ts; cbn [append tokens_from].
  - rewrite D, O. cbn [tokens_from flush bind]. apply (flush_last pending []).
  - destruct (is_digit d); [apply IH|].
    destruct (operator d) as [t'|]; [|discriminate].
    destruct (tokens_from "" (s ++ String c "")) as [ts1|] eqn:E; cbn [bind]; [|discriminate].
    destruct (IH _ _ E) as [ts0 ->]. apply (flush_last pending (t' :: ts0)).
Qed.

Lemma parse_trailing_operator ts t :
  (forall n, t <> NUMBER n) ->
  (forall arith term signs, parse_operand arith term signs (ts ++ [t]) = Raise SyntaxError) /\
  (forall arith e, parse_operator arith e (ts ++ [t]) = Raise SyntaxError).
Proof.
  intros N. induction ts as [|tok ts [IH1 IH2]]; cbn [app].
  - split; intros; destruct t; cbn; try reflexivity; now destruct (N n).
  - split; intros; destruct tok; cbn [parse_operand parse_operator]; auto.
Qed.

Lemma eval_trailing_operator s c t :
  operator c = Some t -> eval (s ++ String c "") = Raise SyntaxError.
Proof.
  intros O. unfold eval, tokenize.
  destruct (tokens_from "" (s ++ String c "")) as [ts|e] eqn:E; cbn [bind].
  - destruct (tokens_from_last _ _ _ _ _ O E) as [ts0 ->]. unfold parse.
    assert (N : forall n, t <> NUMBER n).
    { intros n ->. destruct c as [[] [] [] [] [] [] [] []]; cbv in O; congruence. }
    rewrite (proj1 (parse_trailing_operator ts0 t N)). reflexivity.
  - now rewrite (tokens_from_raise _ _ _ E).
Qed.

End PyEvalFacts.

(* ================================================================== *)
(** * Properties of calculator.py *)
(* ================================================================== *)
Module CalculatorFacts.
Import Py PyEval Calculator CalculatorSpec.

Lemma on_button_click_evaluate (self : CalculatorApp) :
  on_button_click self "=" =
  match eval (prepared (expression self)) with
  | Ok v => mkApp (expression self ++ "=") (str v)
  | Raise _ => mkApp "" "Error"
  end.
Proof. reflexivity. Qed.

(** ** Strings *)

Lemma last_char_app s c : last_char (s ++ String c "") = Some c.
Proof.
  induction s as [|d s IH]; [reflexivity|].
  cbn [append last_char]. rewrite IH.
  destruct (s ++ String c "") eqn:E; [destruct s; discriminate | reflexivity].
Qed.

Lemma last_char_split s c : last_char s = Some c -> exists s0, s = s0 ++ String c "".
Proof.
  induction s as [|d s IH]; [discriminate|]. cbn [last_char].
  destruct s as [|d' s'].
  - intros [= ->]. now exists "".
  - intros H. destruct (IH H) as [s0 ->]. now exists (String d s0).
Qed.

Lemma endswith_app s c : endswith (s ++ String c "") c = true.
Proof. unfold endswith. rewrite last_char_app. apply Ascii.eqb_refl. Qed.

Lemma endswith_split s c : endswith s c = true -> exists s0, s = s0 ++ String c "".
Proof.
  unfold endswith. destruct (last_char s) as [c'|] eqn:E; [|discriminate].
  intros H. apply Ascii.eqb_eq in H. subst. now apply last_char_split.
Qed.

Lemma replace_app old new s t :
  replace old new (s ++ t) = replace old new s ++ replace old new t.
Proof. induction s as [|c s IH]; cbn; [reflexivity | now rewrite IH]. Qed.

Lemma In_last s c : In c (list_ascii_of_string (s ++ String c "")).
Proof. induction s; cbn; auto. Qed.

Lemma char_in_operators c :
  char_in c operators = true -> c = "+"%char \/ c = "-"%char \/ c = times \/ c = obelus.
Proof.
  unfold char_in, operators. cbn [list_ascii_of_string existsb].
  rewrite !orb_true_iff, !Ascii.eqb_eq. intuition auto. discriminate.
Qed.

Ltac operator_cases H :=
  apply char_in_operators in H; destruct H as [H | [H | [H | H]]]; subst.

Lemma operator_not_digit c : char_in c operators = true -> char_in c "0123456789" = false.
Proof. intros H. operator_cases H; reflexivity. Qed.

Lemma operator_not_control c :
  char_in c operators = true -> Ascii.eqb c "C" = false /\ Ascii.eqb c "=" = false.
Proof. intros H. operator_cases H; split; reflexivity. Qed.

(** The character [eval] sees for an operator button is an operator token. *)
Lemma prepared_operator s c :
  char_in c operators = true ->
  exists c' t, prepared (s ++ String c "") = prepared s ++ String c' "" /\ operator c' = Some t.
Proof.
  intros H. rewrite !replace_app.
  operator_cases H; cbn; eexists; eexists; split; reflexivity.
Qed.

Lemma prepared_equal s :
  In "="%char (list_ascii_of_string s) -> In "="%char (list_ascii_of_string (prepared s)).
Proof.
  induction s as [|c s IH]; [intros []|]. cbn [list_ascii_of_string replace].
  intros [->|H]; [now left | right; auto].
Qed.

(** ** Evaluation that fails *)

Lemma evaluate_empty (self : CalculatorApp) :
  expression self = "" -> on_button_click self "=" = mkApp "" "Error".
Proof. intros H. rewrite on_button_click_evaluate, H. reflexivity. Qed.

Lemma evaluate_trailing_operator (self : CalculatorApp) (c : ascii) :
  last_char (expression self) = Some c -> char_in c operators = true ->
  on_button_click self "=" = mkApp "" "Error".
Proof.
  intros L O. rewrite on_button_click_evaluate.
  destruct (last_char_split _ _ L) as [s0 ->].
  destruct (prepared_operator s0 c O) as (c' & t & -> & T).
  rewrite (PyEvalFacts.eval_trailing_operator _ _ _ T). reflexivity.
Qed.

Lemma evaluate_marker (self : CalculatorApp) :
  In "="%char (list_ascii_of_string (expression self)) ->
  on_button_click self "=" = mkApp "" "Error".
Proof.
  intros H.
  rewrite on_button_click_evaluate, (PyEvalFacts.eval_equal _ (prepared_equal _ H)).
  reflexivity.
Qed.

(** C4.  Whenever [eval] raises on the prepared expression, whatever the
    exception, pressing [=] sets the display to "Error" and the expression
    to the empty string.  An empty expression, one that ends with an
    operator and one that holds the marker all raise ([evaluate_empty],
    [evaluate_trailing_operator], [evaluate_marker]); so does 5÷0. *)
Theorem evaluate_failure (self : CalculatorApp) (e : exn) :
  eval (prepared (expression self)) = Raise e ->
  on_button_click self "=" = mkApp "" "Error".
Proof. intros H. rewrite on_button_click_evaluate, H. reflexivity. Qed.

Lemma evaluate_failure_witness :
  on_button_click (presses __init__ (String "5" (String obelus "0"))) "=" = mkApp "" "Error".
Proof.
  apply (evaluate_failure (presses __init__ (String "5" (String obelus "0"))) ZeroDivisionError).
  reflexivity.
Defined.

(** C10.  An expression that ends with the "=" marker cannot be evaluated:
    pressing [=] takes the failure branch. *)
Theorem evaluate_after_marker (self : CalculatorApp) :
  endswith (expression self) "=" = true ->
  on_button_click self "=" = mkApp "" "Error".
Proof.
  intros H. apply evaluate_marker.
  destruct (endswith_split _ _ H) as [s0 ->]. apply In_last.
Qed.

Lemma evaluate_after_marker_witness :
  presses __init__ "12+8=" = mkApp "12+8=" "20" /\
  on_button_click (presses __init__ "12+8=") "=" = mkApp "" "Error".
Proof.
  split; [reflexivity|].
  apply (evaluate_after_marker (presses __init__ "12+8=")). reflexivity.
Defined.

(** ** Evaluation that succeeds *)

(** C6.  When [eval] returns [v], pressing [=] displays [str(v)] and keeps
    the expression with "=" appended; a digit pressed next replaces the
    expression. *)
Theorem evaluate_success (self : CalculatorApp) (v : value) :
  eval (prepared (expression self)) = Ok v ->
  on_button_click self "=" = mkApp (expression self ++ "=") (str v) /\
  forall d, char_in d "0123456789" = true ->
    on_button_click (on_button_click self "=") d = mkApp (String d "") (String d "").
Proof.
  intros H.
  assert (E : on_button_click self "=" = mkApp (expression self ++ "=") (str v)).
  { rewrite on_button_click_evaluate, H. reflexivity. }
  split; [exact E|]. intros d D. rewrite E. unfold on_button_click.
  rewrite D. cbn [expression input_var]. rewrite endswith_app, orb_true_r. reflexivity.
Qed.

Lemma evaluate_success_witness :
  presses __init__ "12+8" = mkApp "12+8" "12+8" /\
  on_button_click (presses __init__ "12+8") "=" = mkApp "12+8=" "20" /\
  on_button_click (presses __init__ "12+8=") "7" = mkApp "7" "7".
Proof.
  destruct (evaluate_success (presses __init__ "12+8") (VInt 20) eq_refl) as [A B].
  split; [reflexivity|]. split; [exact A | exact (B "7"%char eq_refl)].
Defined.

(** ** Operators *)

(** C7.  An operator pressed on an empty expression, or on one whose last
    character is an operator, changes nothing. *)
Theorem operator_press_ignored (self : CalculatorApp) (op : ascii) :
  char_in op operators = true ->
  expression self = "" \/
  (exists c, last_char (expression self) = Some c /\ char_in c operators = true) ->
  on_button_click self op = self.
Proof.
  intros O H. unfold on_button_click.
  rewrite (operator_not_digit op O), O.
  destruct H as [-> | (c & -> & C)]; [reflexivity|].
  rewrite C. reflexivity.
Qed.

Lemma operator_press_ignored_witness :
  presses __init__ "3+" = mkApp "3+" "3+" /\
  on_button_click (mkApp "3+" "3+") "-" = mkApp "3+" "3+" /\
  on_button_click (mkApp "3+" "3+") "+" = mkApp "3+" "3+" /\
  on_button_click __init__ times = __init__.
Proof.
  split; [reflexivity|]. split; [|split].
  - apply (operator_press_ignored (mkApp "3+" "3+") "-"); [reflexivity|].
    right. exists "+"%char. split; reflexivity.
  - apply (operator_press_ignored (mkApp "3+" "3+") "+"); [reflexivity|].
    right. exists "+"%char. split; reflexivity.
  - apply (operator_press_ignored __init__ times); [reflexivity | now left].
Defined.

(** ** The "=" marker *)

(** C9 at 1 + 2 = +.  The operator branch looks only for a trailing
    operator, so an operator pressed after an evaluation lands behind the
    marker; digits then follow it, and the next [=] fails. *)
Theorem marker_mid_string :
  presses __init__ "1+2=" = mkApp "1+2=" "3" /\
  presses __init__ "1+2=+" = mkApp "1+2=+" "1+2=+" /\
  presses __init__ "1+2=+4" = mkApp "1+2=+4" "1+2=+4" /\
  presses __init__ "1+2=+4=" = mkApp "" "Error" /\
  last_char (expression (presses __init__ "1+2=+")) <> Some "="%char.
Proof. repeat split. discriminate. Qed.

(** ** The shape of reachable expressions *)

Lemma scan_app s c : forall p,
  scan p (s ++ String c "") =
  match scan p s with
  | Some q => advance q c
  | None => None
  end.
Proof.
  induction s as [|d s IH]; intros p; cbn [append scan].
  - destruct (advance p c); reflexivity.
  - destruct (advance p d); [apply IH | reflexivity].
Qed.

Lemma advance_marked p c q :
  advance p c = Some q -> marked q = true -> marked p = true \/ c = "="%char.
Proof.
  unfold advance.
  destruct (char_in c "0123456789"); [destruct p; intros [= <-]; cbn; auto|].
  destruct (char_in c operators); [destruct p; intros [= <-]; cbn; auto|].
  destruct (Ascii.eqb_spec c "="); [auto | discriminate].
Qed.

Lemma scan_marked s : forall p q,
  scan p s = Some q -> marked q = true ->
  marked p = true \/ In "="%char (list_ascii_of_string s).
Proof.
  induction s as [|c s IH]; intros p q; cbn [scan list_ascii_of_string].
  - intros [= ->]. auto.
  - destruct (advance p c) as [p'|] eqn:A; [|discriminate].
    intros S M. destruct (IH _ _ S M) as [M'|I]; [|right; now right].
    destruct (advance_marked _ _ _ A M') as [? | ->]; [now left | right; now left].
Qed.

Lemma advance_ends p c q s :
  advance p c = Some q -> ends_as q (s ++ String c "").
Proof.
  unfold advance, ends_as.
  destruct (char_in c "0123456789") eqn:D;
    [destruct p; intros [= <-]; exists c; rewrite last_char_app; auto|].
  destruct (char_in c operators) eqn:O;
    [destruct p; intros [= <-]; exists c; rewrite last_char_app; auto|].
  destruct (Ascii.eqb_spec c "=") as [->|]; [|discriminate].
  destruct p; intros [= <-]. apply last_char_app.
Qed.

Lemma string_rev_cases s : s = "" \/ exists s0 c, s = s0 ++ String c "".
Proof.
  destruct (last_char s) as [c|] eqn:L.
  - right. destruct (last_char_split _ _ L) as [s0 ->]. eauto.
  - left. induction s as [|d [|d' s'] IH]; [reflexivity | discriminate | now apply IH in L].
Qed.

Lemma scan_ends s q : scan Empty s = Some q -> ends_as q s.
Proof.
  destruct (string_rev_cases s) as [->|(s0 & c & ->)].
  - intros [= <-]. reflexivity.
  - rewrite scan_app. destruct (scan Empty s0); [apply advance_ends | discriminate].
Qed.

(** Only a text that ends with a digit and holds no marker evaluates. *)
Lemma eval_ok_phase s q v :
  scan Empty s = Some q -> eval (prepared s) = Ok v -> q = Digit.
Proof.
  intros S E.
  assert (M : marked q = false).
  { destruct (marked q) eqn:M; [|reflexivity].
    destruct (scan_marked _ _ _ S M) as [?|I]; [discriminate|].
    rewrite (PyEvalFacts.eval_equal _ (prepared_equal _ I)) in E. discriminate. }
  pose proof (scan_ends _ _ S) as L.
  destruct q; try discriminate; cbn [ends_as] in L.
  - subst s. discriminate.
  - reflexivity.
  - destruct L as (c & L & O). destruct (last_char_split _ _ L) as [s0 ->].
    destruct (prepared_operator s0 c O) as (c' & t & P & T).
    rewrite P, (PyEvalFacts.eval_trailing_operator _ _ _ T) in E. discriminate.
Qed.

Lemma digit_not_operator c : char_in c "0123456789" = true -> char_in c operators = false.
Proof.
  intros D. destruct (char_in c operators) eqn:O; [|reflexivity].
  rewrite (operator_not_digit c O) in D. discriminate.
Qed.

(** One press keeps the expression in shape. *)
Lemma on_button_click_shape (self : CalculatorApp) (char : ascii) :
  scan Empty (expression self) <> None ->
  scan Empty (expression (on_button_click self char)) <> None.
Proof.
  intros H. destruct (scan Empty (expression self)) as [q|] eqn:S; [clear H | congruence].
  pose proof (scan_ends _ _ S) as L.
  unfold on_button_click.
  destruct (char_in char "0123456789") eqn:D.
  { cbn [expression].
    destruct (String.eqb (input_var self) "0" || endswith (expression self) "=") eqn:R.
    - cbn [scan]. unfold advance. rewrite D. discriminate.
    - rewrite scan_app, S. apply orb_false_elim in R. destruct R as [_ R].
      unfold advance. rewrite D. destruct q; try discriminate.
      cbn [ends_as] in L. unfold endswith in R. rewrite L in R. discriminate. }
  destruct (char_in char operators) eqn:O.
  { destruct (last_char (expression self)) as [c|] eqn:LC; [|cbn; congruence].
    destruct (char_in c operators) eqn:OC; cbn [negb]; [congruence|].
    cbn [expression]. rewrite scan_app, S. unfold advance. rewrite D, O.
    destruct q; try discriminate; cbn [ends_as] in L.
    - rewrite L in LC. discriminate.
    - destruct L as (c' & L1 & L2). congruence.
    - destruct L as (c' & L1 & L2). congruence. }
  destruct (Ascii.eqb char "C"); [discriminate|].
  destruct (Ascii.eqb char "="); [|congruence].
  destruct (eval (prepared (expression self))) as [v|e] eqn:E; [|discriminate].
  cbn [expression]. rewrite scan_app, S, (eval_ok_phase _ _ _ S E). discriminate.
Qed.

(** From the initial state every sequence of presses leaves an expression
    that [scan] accepts: it starts with a digit, no operator follows an
    operator, and "=" follows a digit and is followed, if at all, by an
    operator. *)
Lemma reachable_shape (chars : string) :
  scan Empty (expression (presses __init__ chars)) <> None.
Proof.
  unfold presses.
  assert (G : forall l self, scan Empty (expression self) <> None ->
                        scan Empty (expression (fold_left on_button_click l self)) <> None).
  { induction l as [|c l IH]; intros self H; cbn [fold_left]; [exact H|].
    apply IH, on_button_click_shape, H. }
  apply G. discriminate.
Qed.

(** An accepted text holds at most one marker. *)
Lemma scan_count_marker s : forall p q,
  scan p s = Some q ->
  (count_marker s <= (if marked p then 0 else 1))%nat.
Proof.
  unfold count_marker.
  induction s as [|c s IH]; intros p q; cbn [scan list_ascii_of_string filter].
  - intros _. cbn. destruct (marked p); lia.
  - destruct (advance p c) as [p'|] eqn:A; [|discriminate].
    intros S. specialize (IH _ _ S).
    destruct (Ascii.eqb_spec "=" c) as [<-|N]; cbn [List.length].
    + destruct p; cbv in A; try discriminate. injection A as <-. cbn in *. lia.
    + unfold advance in A.
      destruct (char_in c "0123456789");
        [|destruct (char_in c operators);
          [|destruct (Ascii.eqb_spec c "="); [congruence | discriminate]]];
        destruct p; inversion A; subst; cbn in *; lia.
Qed.

Lemma reachable_one_marker (chars : string) :
  (count_marker (expression (presses __init__ chars)) <= 1)%nat.
Proof.
  destruct (scan Empty (expression (presses __init__ chars))) as [q|] eqn:S.
  - apply (scan_count_marker _ _ _ S).
  - now apply reachable_shape in S.
Qed.

(** ** Evaluation against conventional arithmetic *)

Lemma append_assoc (a b c : string) : (a ++ b) ++ c = a ++ (b ++ c).
Proof. induction a as [|x a IH]; cbn; [reflexivity | now rewrite IH]. Qed.

Lemma append_nil_r (a : string) : a ++ "" = a.
Proof. induction a as [|x a IH]; cbn; [reflexivity | now rewrite IH]. Qed.

Lemma char_in_digit c : char_in c "0123456789" = is_digit c.
Proof. destruct c as [[] [] [] [] [] [] [] []]; reflexivity. Qed.

Lemma prepared_digit c :
  char_in c "0123456789" = true -> prepared (String c "") = String c "".
Proof. rewrite char_in_digit. destruct c as [[] [] [] [] [] [] [] []]; cbv; congruence. Qed.

Lemma prepared_digits n :
  forallb (fun c => char_in c "0123456789") (list_ascii_of_string n) = true ->
  prepared n = n.
Proof.
  induction n as [|c n IH]; [reflexivity|]. cbn [list_ascii_of_string forallb].
  intros H. apply andb_prop in H. destruct H as [D H].
  change (String c n) with (String c "" ++ n).
  rewrite !replace_app, (prepared_digit c D), (IH H). reflexivity.
Qed.

Lemma is_number_digits n :
  is_number n = true ->
  n <> "" /\ forallb (fun c => char_in c "0123456789") (list_ascii_of_string n) = true.
Proof.
  unfold is_number. intros H. apply andb_prop in H. destruct H as [E D].
  split; [|exact D]. intros ->. discriminate.
Qed.

Lemma plain_step_inv op n :
  plain_step (op, n) = true -> is_number n = true /\ no_leading_zero n = true.
Proof. unfold plain_step, plain_number. cbn [snd]. apply andb_prop. Qed.

Lemma prepared_render_rest rest :
  forallb plain_step rest = true ->
  prepared (render_rest rest) = source_rest rest.
Proof.
  induction rest as [|[op n] rest IH]; [reflexivity|]. cbn [forallb].
  intros H. apply andb_prop in H. destruct H as [P H].
  destruct (plain_step_inv _ _ P) as (N & _).
  destruct (is_number_digits _ N) as [_ D].
  cbn [render_rest source_rest].
  change (String (glyph op) (n ++ render_rest rest))
    with (String (glyph op) "" ++ (n ++ render_rest rest)).
  rewrite !replace_app, (prepared_digits n D), (IH H). destruct op; reflexivity.
Qed.

Lemma prepared_render first rest :
  is_number first = true -> forallb plain_step rest = true ->
  prepared (render first rest) = first ++ source_rest rest.
Proof.
  intros N R. unfold render. destruct (is_number_digits _ N) as [_ D].
  rewrite !replace_app, (prepared_digits first D), (prepared_render_rest rest R). reflexivity.
Qed.

(** *** Tokens *)

Lemma tokens_from_number n : forall pending s,
  forallb (fun c => char_in c "0123456789") (list_ascii_of_string n) = true ->
  tokens_from pending (n ++ s) = tokens_from (pending ++ n) s.
Proof.
  induction n as [|c n IH]; intros pending s; cbn [list_ascii_of_string forallb append].
  - now rewrite append_nil_r.
  - intros H. apply andb_prop in H. destruct H as [D H]. rewrite char_in_digit in D.
    cbn [tokens_from]. rewrite D, (IH _ _ H), append_assoc. reflexivity.
Qed.

Lemma decimal_value_zeros n :
  forallb (Ascii.eqb "0") (list_ascii_of_string n) = true -> decimal_value n = 0.
Proof.
  unfold decimal_value.
  assert (G : forall l, forallb (Ascii.eqb "0") l = true ->
                   fold_left (fun acc c => 10 * acc + digit_value c) l 0 = 0).
  { induction l as [|c l IH]; [reflexivity|]. cbn [forallb fold_left].
    intros H. apply andb_prop in H. destruct H as [Z H].
    apply Ascii.eqb_eq in Z. subst c. exact (IH H). }
  apply G.
Qed.

Lemma number_plain n :
  no_leading_zero n = true -> number n = Ok (decimal_value n).
Proof.
  unfold number, no_leading_zero, all_zeros.
  destruct n as [|c n]; [reflexivity|].
  destruct (Ascii.eqb_spec c "0") as [->|N].
  - intros H. rewrite H, (decimal_value_zeros _ H). reflexivity.
  - intros _. destruct c as [[] [] [] [] [] [] [] []]; try reflexivity. now destruct N.
Qed.

Lemma flush_plain n ts :
  is_number n = true -> no_leading_zero n = true ->
  flush n ts = Ok (NUMBER (decimal_value n) :: ts).
Proof.
  intros N Z. destruct (is_number_digits _ N) as [E _].
  unfold flush. destruct n; [now destruct E|]. now rewrite (number_plain _ Z).
Qed.

Lemma source_op_token op :
  is_digit (source_op op) = false /\ operator (source_op op) = Some (op_token op).
Proof. destruct op; split; reflexivity. Qed.

Lemma tokenize_source rest : forall n,
  is_number n = true -> no_leading_zero n = true ->
  forallb plain_step rest = true ->
  tokenize (n ++ source_rest rest) = Ok (NUMBER (decimal_value n) :: rest_tokens rest).
Proof.
  unfold tokenize.
  induction rest as [|[op m] rest IH]; intros n N Z R;
    destruct (is_number_digits _ N) as [_ D]; rewrite (tokens_from_number n "" _ D);
    cbn [append source_rest rest_tokens tokens_from].
  - now apply flush_plain.
  - cbn [forallb] in R. apply andb_prop in R. destruct R as [P R].
    destruct (plain_step_inv _ _ P) as (Nm & Zm).
    destruct (source_op_token op) as [-> ->].
    rewrite (IH m Nm Zm R). cbn [bind]. now apply flush_plain.
Qed.

(** *** Syntax and value *)

Lemma close_exact arith f t : pending_sum arith f -> exact (close arith t) = f (exact t).
Proof. intros []; reflexivity. Qed.

Lemma close_division_free arith f t :
  pending_sum arith f ->
  division_free (close arith t) =
  match arith with
  | Some (lhs, _) => division_free lhs && division_free t
  | None => division_free t
  end.
Proof. intros []; reflexivity. Qed.

Lemma close_divides_by_zero arith f t :
  pending_sum arith f ->
  divides_by_zero (close arith t) =
  match arith with
  | Some (lhs, _) => divides_by_zero lhs
  | None => false
  end || divides_by_zero t.
Proof. intros []; cbn [close divides_by_zero]; rewrite ?orb_false_r; reflexivity. Qed.

Lemma zero_divisor_value n :
  Qeq_bool (Qvalue n) 0 = true -> decimal_value n = 0.
Proof.
  intros H. apply Qeq_bool_iff in H. unfold Qvalue, Qeq in H. cbn in H. lia.
Qed.

(** The parser against the two passes of the spec, with the product [t]
    read so far and the sum [arith] before it. *)
Lemma parse_operator_conventional rest : forall arith f t,
  pending_sum arith f ->
  exists e,
    parse_operator arith t (rest_tokens rest) = Ok e /\
    (division_free (close arith t) = true -> forallb not_division rest = true ->
     division_free e = true) /\
    (divides_by_zero (close arith t) = true \/ existsb zero_divisor rest = true ->
     divides_by_zero e = true) /\
    match products (exact t) rest with
    | Some (t0, l) => exact e = sums (f t0) l
    | None => existsb zero_divisor rest = true
    end.
Proof.
  induction rest as [|[op n] rest IH]; intros arith f t A.
  - exists (close arith t). cbn [rest_tokens parse_operator products forallb existsb sums fold_left].
    split; [reflexivity|]. split; [auto|]. split; [intros [H|H]; [exact H | discriminate]|].
    now apply close_exact.
  - cbn [rest_tokens forallb existsb]. destruct op;
      cbn [op_token parse_operator parse_operand apply_signs fold_left close products].
    + destruct (IH (Some (close arith t, Add)) _ (Constant (decimal_value n)) (sum_add _))
        as (e & E1 & E2 & E3 & E4).
      exists e. split; [exact E1|]. cbn [close division_free divides_by_zero] in E2, E3.
      split; [intros F R; apply E2; [now rewrite F | exact R]|].
      split; [intros [Z|Z]; apply E3; [left; now rewrite Z | right; exact Z]|].
      change (exact (Constant (decimal_value n))) with (Qvalue n) in E4.
      destruct (products (Qvalue n) rest) as [[t0 l]|]; [|exact E4].
      cbn [sums fold_left]. rewrite E4, (close_exact _ _ _ A). reflexivity.
    + destruct (IH (Some (close arith t, Sub)) _ (Constant (decimal_value n)) (sum_sub _))
        as (e & E1 & E2 & E3 & E4).
      exists e. split; [exact E1|]. cbn [close division_free divides_by_zero] in E2, E3.
      split; [intros F R; apply E2; [now rewrite F | exact R]|].
      split; [intros [Z|Z]; apply E3; [left; now rewrite Z | right; exact Z]|].
      change (exact (Constant (decimal_value n))) with (Qvalue n) in E4.
      destruct (products (Qvalue n) rest) as [[t0 l]|]; [|exact E4].
      cbn [sums fold_left]. rewrite E4, (close_exact _ _ _ A). reflexivity.
    + destruct (IH arith f (BinOp t Mult (Constant (decimal_value n))) A)
        as (e & E1 & E2 & E3 & E4).
      exists e. split; [exact E1|].
      rewrite (close_division_free _ _ _ A) in E2. rewrite (close_division_free _ _ t A).
      split.
      { intros F R. apply E2; [|exact R]. cbn [division_free].
        destruct arith as [[lhs o]|]; rewrite ?andb_true_r; exact F. }
      split; [|exact E4].
      intros [Z|Z]; apply E3; [left | right; exact Z].
      rewrite (close_divides_by_zero _ _ _ A) in Z. rewrite (close_divides_by_zero _ _ _ A).
      cbn [divides_by_zero]. apply orb_true_iff in Z. destruct Z as [-> | ->];
        rewrite ?orb_true_r; reflexivity.
    + destruct (IH arith f (BinOp t Div (Constant (decimal_value n))) A)
        as (e & E1 & E2 & E3 & E4).
      exists e. split; [exact E1|]. split; [discriminate|].
      unfold zero_divisor at 1 3. cbn [fst snd].
      destruct (Qeq_bool (Qvalue n) 0) eqn:Q0.
      * split; [|reflexivity]. intros _. apply E3. left.
        rewrite (close_divides_by_zero _ _ _ A), (zero_divisor_value n Q0).
        cbn [divides_by_zero]. rewrite !orb_true_r. reflexivity.
      * split; [|exact E4].
        intros [Z|Z]; apply E3; [left | right; exact Z].
        rewrite (close_divides_by_zero _ _ _ A) in Z. rewrite (close_divides_by_zero _ _ _ A).
        cbn [divides_by_zero]. apply orb_true_iff in Z. destruct Z as [-> | ->];
          rewrite ?orb_true_r; reflexivity.
Qed.

Lemma inject_Z_minus (x y : Z) : inject_Z (x - y) = (inject_Z x - inject_Z y)%Q.
Proof. unfold Qminus. now rewrite <- inject_Z_opp, <- inject_Z_plus. Qed.

(** Without a division every value is an [int], and exact. *)
Lemma eval_division_free e :
  division_free e = true -> exists z, eval_expr e = Ok (VInt z) /\ exact e = inject_Z z.
Proof.
  induction e as [n | op e IH | lhs IHl op rhs IHr]; cbn [division_free eval_expr exact].
  - intros _. now exists n.
  - intros F. destruct (IH F) as (z & E & X). rewrite E, X. cbn [bind].
    destruct op; cbn [unary]; [now exists z | exists (- z)].
    split; [reflexivity | now rewrite inject_Z_opp].
  - destruct op; try discriminate; intros F; apply andb_prop in F; destruct F as [Fl Fr];
      destruct (IHl Fl) as (a & Ea & Xa); destruct (IHr Fr) as (b & Eb & Xb);
      rewrite Ea, Eb, Xa, Xb; cbn [bind binary].
    + exists (a + b). now rewrite inject_Z_plus.
    + exists (a - b). now rewrite inject_Z_minus.
    + exists (a * b). now rewrite inject_Z_mult.
Qed.

(** A division by the literal 0 raises, unless something raised before. *)
Lemma eval_divides_by_zero e :
  divides_by_zero e = true -> exists x, eval_expr e = Raise x.
Proof.
  induction e as [n | op e IH | lhs IHl op rhs IHr]; cbn [divides_by_zero eval_expr].
  - discriminate.
  - intros Z. destruct (IH Z) as [x ->]. now exists x.
  - intros Z. destruct (eval_expr lhs) as [a|x] eqn:El; [|now exists x].
    destruct (eval_expr rhs) as [b|x] eqn:Er; [|now exists x]. cbn [bind].
    apply orb_true_iff in Z. destruct Z as [Z|Z].
    { apply orb_true_iff in Z. destruct Z as [Z|Z];
        [destruct (IHl Z) | destruct (IHr Z)]; discriminate. }
    destruct op; try discriminate. destruct rhs as [[| |]| |]; try discriminate.
    cbn in Er. injection Er as <-.
    destruct a as [x|x]; [exists ZeroDivisionError; reflexivity|].
    exists ZeroDivisionError. reflexivity.
Qed.

Lemma parse_source first rest :
  exists e,
    parse (NUMBER (decimal_value first) :: rest_tokens rest) = Ok e /\
    (forallb not_division rest = true -> division_free e = true) /\
    match conventional first rest with
    | Some q => exact e = q
    | None => divides_by_zero e = true
    end.
Proof.
  destruct (parse_operator_conventional rest None _ (Constant (decimal_value first)) sum_none)
    as (e & E1 & E2 & E3 & E4).
  exists e. split; [exact E1|]. split; [apply E2; reflexivity|].
  unfold conventional. change (exact (Constant (decimal_value first))) with (Qvalue first) in E4.
  destruct (products (Qvalue first) rest) as [[t0 l]|]; [exact E4 | apply E3; now right].
Qed.

(** C1 as stated fails.  Pressing 1 + 0 5 builds "1+05", which is 6 in
    conventional arithmetic; [eval] rejects the literal 05 and the display
    shows "Error".  Pressing 1 ÷ 3 builds an expression worth 1/3; the
    display shows the binary64 quotient, whose exact value is another
    number. *)
Lemma leading_zero_operand :
  presses __init__ "1+05" = mkApp (render "1" [(Plus, "05")]) "1+05" /\
  conventional "1" [(Plus, "05")] = Some (inject_Z 6) /\
  on_button_click (presses __init__ "1+05") "=" = mkApp "" "Error" /\
  presses __init__ (render "1" [(Divide, "3")]) =
    mkApp (render "1" [(Divide, "3")]) (render "1" [(Divide, "3")]) /\
  conventional "1" [(Divide, "3")] = Some (1 # 3) /\
  eval (prepared (render "1" [(Divide, "3")])) =
    Ok (VFloat (S754_finite false 6004799503160661 (-54))) /\
  input_var (on_button_click (presses __init__ (render "1" [(Divide, "3")])) "=") =
    "0.3333333333333333" /\
  ~ (exact_value 6004799503160661 (-54) == 1 # 3)%Q.
Proof.
  split; [reflexivity|]. split; [reflexivity|]. split; [reflexivity|].
  split; [reflexivity|]. split; [reflexivity|]. split; [reflexivity|].
  split; [vm_compute; reflexivity|].
  intros H. apply Qeq_bool_iff in H. vm_compute in H. discriminate.
Qed.

(** *** The value Python computes *)

Lemma close_eval arith t v :
  eval_expr (close arith t) = Ok v <->
  exists b, eval_expr t = Ok b /\ pending_value arith b v.
Proof.
  destruct arith as [[lhs op]|]; cbn [close eval_expr pending_value].
  - destruct (eval_expr lhs) as [a|x]; cbn [bind].
    + destruct (eval_expr t) as [b|y]; cbn [bind]; split.
      * intros H. exists b. split; [reflexivity|]. now exists a.
      * intros (b' & [= <-] & a' & [= <-] & H). exact H.
      * discriminate.
      * intros (b' & H & _). discriminate H.
    + split; [discriminate|]. intros (b & _ & a & H & _). discriminate H.
  - split; [intros H; now exists v | intros (b & H & ->); exact H].
Qed.

(** The tree the parser builds, evaluated by [eval_expr], against the two
    passes on Python's numbers: the product being read is [t], the sum in
    front of it [arith]. *)
Lemma parse_operator_python rest : forall arith t e v,
  parse_operator arith t (rest_tokens rest) = Ok e ->
  (eval_expr e = Ok v <->
   exists b t0 l s,
     eval_expr t = Ok b /\
     products_py b rest = Ok (t0, l) /\
     pending_value arith t0 s /\
     sums_py s l = Ok v).
Proof.
  induction rest as [|[op n] rest IH]; intros arith t e v P.
  - cbn [rest_tokens parse_operator] in P. injection P as <-.
    rewrite close_eval. cbn [products_py sums_py]. split.
    + intros (b & T & A). now exists b, b, [], v.
    + intros (b & t0 & l & s & T & [= <- <-] & A & [= <-]). now exists b.
  - cbn [rest_tokens] in P. destruct op;
      cbn [op_token parse_operator parse_operand apply_signs fold_left close] in P;
      rewrite (IH _ _ _ v P); clear IH P; cbn [products_py eval_expr]; split.
    + intros (b' & t0' & l' & s' & [= <-] & Pr & (a' & C & A) & S).
      apply close_eval in C. destruct C as (b & T & Pv).
      exists b, b, ((Plus, t0') :: l'), a'. rewrite Pr. cbn [bind fst snd sums_py].
      rewrite A. cbn [bind]. auto.
    + intros (b & t0 & l & s & T & Pr & Pv & S).
      destruct (products_py (VInt (decimal_value n)) rest) as [[t0' l']|] eqn:Pr';
        cbn [bind fst snd] in Pr; [|discriminate]. injection Pr as <- <-.
      cbn [sums_py] in S. destruct (binary Add s t0') as [s'|] eqn:A; cbn [bind] in S;
        [|discriminate].
      exists (VInt (decimal_value n)), t0', l', s'. repeat split; try assumption.
      exists s. split; [|exact A]. apply close_eval. now exists b.
    + intros (b' & t0' & l' & s' & [= <-] & Pr & (a' & C & A) & S).
      apply close_eval in C. destruct C as (b & T & Pv).
      exists b, b, ((Minus, t0') :: l'), a'. rewrite Pr. cbn [bind fst snd sums_py].
      rewrite A. cbn [bind]. auto.
    + intros (b & t0 & l & s & T & Pr & Pv & S).
      destruct (products_py (VInt (decimal_value n)) rest) as [[t0' l']|] eqn:Pr';
        cbn [bind fst snd] in Pr; [|discriminate]. injection Pr as <- <-.
      cbn [sums_py] in S. destruct (binary Sub s t0') as [s'|] eqn:A; cbn [bind] in S;
        [|discriminate].
      exists (VInt (decimal_value n)), t0', l', s'. repeat split; try assumption.
      exists s. split; [|exact A]. apply close_eval. now exists b.
    + intros (b' & t0 & l & s & T & Pr & Pv & S).
      destruct (eval_expr t) as [b|]; cbn [bind] in T; [|discriminate].
      exists b, t0, l, s. rewrite T. cbn [bind]. auto.
    + intros (b & t0 & l & s & T & Pr & Pv & S). rewrite T. cbn [bind].
      destruct (binary Mult b (VInt (decimal_value n))) as [b'|]; cbn [bind] in Pr;
        [|discriminate].
      now exists b', t0, l, s.
    + intros (b' & t0 & l & s & T & Pr & Pv & S).
      destruct (eval_expr t) as [b|]; cbn [bind] in T; [|discriminate].
      exists b, t0, l, s. rewrite T. cbn [bind]. auto.
    + intros (b & t0 & l & s & T & Pr & Pv & S). rewrite T. cbn [bind].
      destruct (binary Div b (VInt (decimal_value n))) as [b'|]; cbn [bind] in Pr;
        [|discriminate].
      now exists b', t0, l, s.
Qed.

Lemma eval_conventional_py first rest e v :
  parse (NUMBER (decimal_value first) :: rest_tokens rest) = Ok e ->
  (eval_expr e = Ok v <-> conventional_py first rest = Ok v).
Proof.
  intros P. unfold parse in P. cbn [parse_operand apply_signs fold_left close] in P.
  rewrite (parse_operator_python rest None _ e v P). unfold conventional_py.
  cbn [eval_expr pending_value]. split.
  - intros (b & t0 & l & s & [= <-] & Pr & -> & S). rewrite Pr. exact S.
  - intros H.
    destruct (products_py (VInt (decimal_value first)) rest) as [[t0 l]|] eqn:Pr;
      cbn [bind fst snd] in H; [|discriminate].
    exists (VInt (decimal_value first)), t0, l, t0. auto.
Qed.

(** C1, amended.  Whatever buttons were pressed, if the expression they
    left reads as [first op1 n1 op2 n2 ...] with every operand a run of
    digits that does not start with a superfluous zero, and lies within
    the interpreter's limits, then pressing [=] displays the value that
    conventional evaluation gives on Python's numbers (× and ÷ first, left
    to right, then + and −, left to right; ints exact, ÷ rounded to
    binary64) and appends the marker, or displays "Error" when that
    evaluation raises.  It raises whenever a divisor is zero.  When no ÷
    occurs the value is an integer, the very number exact arithmetic
    gives.  The tree [eval] parses has the conventional exact value. *)
Theorem evaluate_conventional (chars first : string) (rest : list (arith_op * string)) :
  expression (presses __init__ chars) = render first rest ->
  plain_number first = true ->
  forallb plain_step rest = true ->
  within_limits first rest = true ->
  match conventional_py first rest with
  | Ok v =>
      on_button_click (presses __init__ chars) "=" = mkApp (render first rest ++ "=") (str v)
  | Raise _ =>
      on_button_click (presses __init__ chars) "=" = mkApp "" "Error"
  end /\
  (conventional first rest = None -> exists x, conventional_py first rest = Raise x) /\
  (forallb not_division rest = true ->
   exists z, conventional_py first rest = Ok (VInt z) /\
             conventional first rest = Some (inject_Z z)) /\
  (exists e,
      (ts <- tokenize (prepared (render first rest)) ;; parse ts) = Ok e /\
      forall q, conventional first rest = Some q -> exact e = q).
Proof.
  intros X N R _. unfold plain_number in N. apply andb_prop in N. destruct N as [N Z].
  destruct (parse_source first rest) as (e & P & F & C).
  assert (T : tokenize (prepared (render first rest)) =
              Ok (NUMBER (decimal_value first) :: rest_tokens rest)).
  { rewrite (prepared_render first rest N R). now apply tokenize_source. }
  assert (V : eval (prepared (expression (presses __init__ chars))) = eval_expr e).
  { unfold eval. rewrite X, T. cbn [bind]. rewrite P. reflexivity. }
  pose proof (fun v => eval_conventional_py first rest e v P) as Y.
  split; [|split; [|split]].
  - rewrite on_button_click_evaluate, V, X.
    destruct (conventional_py first rest) as [v|x] eqn:Cp.
    + rewrite (proj2 (Y v) eq_refl). reflexivity.
    + destruct (eval_expr e) as [v|y] eqn:E; [|reflexivity].
      discriminate (proj1 (Y v) eq_refl).
  - intros Cn. rewrite Cn in C. destruct (eval_divides_by_zero e C) as [x E].
    destruct (conventional_py first rest) as [v|y] eqn:Cp; [|now exists y].
    pose proof (proj2 (Y v) eq_refl) as E'. rewrite E in E'. discriminate E'.
  - intros D. destruct (eval_division_free e (F D)) as (z & E & Q).
    exists z. split; [now apply Y|].
    destruct (conventional first rest) as [q|]; [now rewrite <- C, Q|].
    destruct (eval_divides_by_zero e C) as [x E']. rewrite E in E'. discriminate E'.
  - exists e. rewrite T. cbn [bind]. split; [exact P|].
    intros q Cn. rewrite Cn in C. exact C.
Qed.

Lemma evaluate_conventional_witness :
  on_button_click (presses __init__ (render "2" [(Plus, "3"); (Times, "14"); (Minus, "0")])) "=" =
    mkApp (render "2" [(Plus, "3"); (Times, "14"); (Minus, "0")] ++ "=") "44" /\
  on_button_click (presses __init__ (render "7" [(Minus, "6"); (Divide, "4")])) "=" =
    mkApp (render "7" [(Minus, "6"); (Divide, "4")] ++ "=") "5.5" /\
  on_button_click (presses __init__ (render "1" [(Divide, "10"); (Plus, "2"); (Divide, "10")])) "=" =
    mkApp (render "1" [(Divide, "10"); (Plus, "2"); (Divide, "10")] ++ "=") "0.30000000000000004" /\
  on_button_click (presses __init__ (render "7" [(Minus, "6"); (Divide, "0")])) "=" =
    mkApp "" "Error".
Proof.
  split; [|split; [|split]].
  - exact (proj1 (evaluate_conventional
                    (render "2" [(Plus, "3"); (Times, "14"); (Minus, "0")])
                    "2" [(Plus, "3"); (Times, "14"); (Minus, "0")]
                    eq_refl eq_refl eq_refl eq_refl)).
  - exact (proj1 (evaluate_conventional
                    (render "7" [(Minus, "6"); (Divide, "4")])
                    "7" [(Minus, "6"); (Divide, "4")]
                    eq_refl eq_refl eq_refl eq_refl)).
  - exact (proj1 (evaluate_conventional
                    (render "1" [(Divide, "10"); (Plus, "2"); (Divide, "10")])
                    "1" [(Divide, "10"); (Plus, "2"); (Divide, "10")]
                    eq_refl eq_refl eq_refl eq_refl)).
  - exact (proj1 (evaluate_conventional
                    (render "7" [(Minus, "6"); (Divide, "0")])
                    "7" [(Minus, "6"); (Divide, "0")]
                    eq_refl eq_refl eq_refl eq_refl)).
Defined.

End CalculatorFacts.

(* ================================================================== *)
(** * Properties of rock_paper_scissors.py *)
(* ================================================================== *)
Module RPSFacts.
Import Py RPS RPSSpec.

Lemma init_initial : __init__ = Ok initial.
Proof. reflexivity. Qed.

Lemma in_CHOICES x :
  In x CHOICES -> x = "rock" \/ x = "paper" \/ x = "scissors".
Proof. unfold CHOICES; simpl; intuition auto. Qed.

Lemma str_in_In x seq : str_in x seq = true <-> In x seq.
Proof.
  unfold str_in. rewrite existsb_exists. split.
  - intros (y & Hy & E). apply String.eqb_eq in E. now subst.
  - intros H. exists x. split; [assumption | apply String.eqb_refl].
Qed.

Lemma random_choice_valid r : In (random_choice r CHOICES) CHOICES.
Proof.
  unfold random_choice. apply nth_In.
  apply Nat.mod_upper_bound. discriminate.
Qed.

Ltac choice_cases H :=
  apply in_CHOICES in H; destruct H as [H | [H | H]]; subst.

(** C2.  On two valid choices [decide_winner] returns "tie" exactly when
    they are equal, "win" exactly when the player's choice beats the
    computer's in the cyclic table (rock over scissors, paper over rock,
    scissors over paper) and "lose" otherwise; for distinct choices exactly
    one of the two orders is a "win". *)
Theorem decide_winner_cyclic (a b : string) :
  In a CHOICES -> In b CHOICES ->
  (decide_winner a b = "tie" <-> a = b) /\
  (decide_winner a b = "win" <-> beats a b) /\
  (a <> b -> ~ beats a b -> decide_winner a b = "lose") /\
  (a <> b ->
   (decide_winner a b = "win" /\ decide_winner b a <> "win") \/
   (decide_winner a b <> "win" /\ decide_winner b a = "win")).
Proof.
  intros Ha Hb. choice_cases Ha; choice_cases Hb; cbv [beats];
    repeat split; intros; try reflexivity; try discriminate; try congruence;
    try (vm_compute; congruence);
    try (left; split; [reflexivity | vm_compute; congruence]);
    try (right; split; [vm_compute; congruence | reflexivity]);
    try (vm_compute in *; intuition congruence).
Qed.

Lemma decide_winner_cyclic_witness :
  (decide_winner "rock" "scissors" = "tie" <-> "rock" = "scissors") /\
  (decide_winner "rock" "scissors" = "win" <-> beats "rock" "scissors") /\
  ("rock" <> "scissors" -> ~ beats "rock" "scissors" ->
   decide_winner "rock" "scissors" = "lose") /\
  ("rock" <> "scissors" ->
   (decide_winner "rock" "scissors" = "win" /\ decide_winner "scissors" "rock" <> "win") \/
   (decide_winner "rock" "scissors" <> "win" /\ decide_winner "scissors" "rock" = "win")).
Proof.
  apply (decide_winner_cyclic "rock" "scissors"); simpl; auto.
Defined.

(** C5.  A [player_choice] outside [CHOICES] only raises the error dialog:
    the four counters and the four display variables stay as they were. *)
Theorem play_invalid_choice (st : RPSApp) (player_choice : string) (r : nat) :
  ~ In player_choice CHOICES ->
  play st player_choice r =
  (st, [showerror "Invalid move" ("'" ++ player_choice ++ "' is not a valid choice.")]).
Proof.
  intros H. unfold play.
  destruct (str_in player_choice CHOICES) eqn:E; [|reflexivity].
  apply str_in_In in E. contradiction.
Qed.

Lemma play_invalid_choice_witness :
  play initial "Rock" 0 =
  (initial, [showerror "Invalid move" "'Rock' is not a valid choice."]).
Proof.
  apply (play_invalid_choice initial "Rock" 0).
  intros H. apply str_in_In in H. discriminate H.
Defined.

(** C8 as stated fails: the round-result text after a reset is not the
    initial placeholder. *)
Lemma reset_score_result_text_not_initial :
  result_var initial = "Make your move!" /\
  result_var (fst (reset_score initial)) = "Scores reset. Make your move!" /\
  result_var (fst (reset_score initial)) <> result_var initial.
Proof. repeat split. discriminate. Qed.

(** C8, amended.  Whatever the state, [reset_score] raises nothing and
    leaves the four counters at zero, the score line and the statistics
    line (win rate "0.0%") as at start-up, the computer-move text at its
    initial placeholder, and the round-result text at
    "Scores reset. Make your move!". *)
Theorem reset_score_zeroes (st : RPSApp) :
  reset_score st =
  (mkApp 0 0 0 0
         (score_var initial)
         (stats_line 0 0 0 0 "0.0")
         "Scores reset. Make your move!"
         (computer_var initial),
   []).
Proof. reflexivity. Qed.

Lemma win_rate_defined (st : RPSApp) :
  0 <= player_score st <= total_rounds st -> 0 < total_rounds st ->
  exists q, int_true_divide (player_score st) (total_rounds st) = Ok q /\
            win_rate st = Ok (float_mul q (S754_finite false 7036874417766400 (-46))).
Proof.
  intros Hp Ht.
  destruct (PyFacts.int_true_divide_fraction _ _ Hp Ht) as [q Hq].
  exists q. split; [assumption|]. unfold win_rate. rewrite Hq. reflexivity.
Qed.

Lemma format_defined (st : RPSApp) :
  0 <= player_score st <= total_rounds st -> 0 <= total_rounds st ->
  exists s, _format_detailed_stats st = Ok s.
Proof.
  intros Hp Ht. unfold _format_detailed_stats.
  destruct (Z.eqb_spec (total_rounds st) 0) as [|Hn]; [eexists; reflexivity|].
  destruct (win_rate_defined st) as (q & _ & Hq); [lia | lia |].
  rewrite Hq. eexists; reflexivity.
Qed.

Lemma update_detailed_stats_tally (st : RPSApp) :
  0 <= player_score st -> 0 <= computer_score st -> 0 <= ties st ->
  total_rounds st = player_score st + computer_score st + ties st ->
  tally (fst (update_detailed_stats st)) /\ snd (update_detailed_stats st) = [].
Proof.
  intros Hp Hc Ht Hn. unfold update_detailed_stats.
  destruct (format_defined st) as [s Hs]; [lia | lia |].
  rewrite Hs. split; [|reflexivity].
  constructor; try assumption.
Qed.

Lemma play_tally (st : RPSApp) (player_choice : string) (r : nat) :
  tally st ->
  tally (fst (play st player_choice r)) /\
  existsb is_uncaught (snd (play st player_choice r)) = false.
Proof.
  intros [Hp Hc Ht Hn Hs]. unfold play.
  destruct (str_in player_choice CHOICES); cbn [negb].
  - destruct (String.eqb (decide_winner _ _) "win");
      [|destruct (String.eqb (decide_winner _ _) "lose")];
      match goal with
      | |- context [update_detailed_stats ?s] =>
          destruct (update_detailed_stats_tally s) as [A B]; [cbn; lia ..|];
          rewrite B; split; [exact A | reflexivity]
      end.
  - split; [constructor; assumption | reflexivity].
Qed.

Lemma reset_score_tally (st : RPSApp) :
  tally (fst (reset_score st)) /\ snd (reset_score st) = [].
Proof. split; [constructor; cbn; (lia || reflexivity) | reflexivity]. Qed.

Lemma run_tally (cs : list call) : forall st,
  tally st ->
  tally (fst (run st cs)) /\ existsb is_uncaught (snd (run st cs)) = false.
Proof.
  induction cs as [|c cs IH]; intros st H; cbn [run].
  - split; [assumption | reflexivity].
  - assert (S : tally (fst (handle st c)) /\ existsb is_uncaught (snd (handle st c)) = false).
    { destruct c as [pc r|]; cbn [handle].
      - apply play_tally, H.
      - destruct (reset_score_tally st) as [A B]. rewrite B. split; [exact A | reflexivity]. }
    destruct (handle st c) as [st1 out1]. cbn [fst snd] in S. destruct S as [S1 S2].
    specialize (IH st1 S1). destruct (run st1 cs) as [st2 out2]. cbn [fst snd] in *.
    split; [apply IH|]. rewrite existsb_app, S2. apply IH.
Qed.

Lemma initial_tally : tally initial.
Proof. constructor; cbn; (lia || reflexivity). Qed.

(** C3 as stated fails on the win rate: after 23 wins in 80 rounds the
    exact rate is 28.75, which rounds to 28.8, and the line shows 28.7
    (the float product is 28.749999999999996). *)
Lemma win_rate_23_of_80 :
  let st := fst (run initial rounds_23_of_80) in
  player_score st = 23 /\ total_rounds st = 80 /\
  detailed_stats_var st = stats_line 23 57 0 80 "28.7" /\
  one_decimal (exact_tenths_half_even 23 80) = "28.8" /\
  one_decimal (exact_tenths_half_up 23 80) = "28.8" /\
  detailed_stats_var st <> stats_line 23 57 0 80 (one_decimal (exact_tenths_half_even 23 80)).
Proof. vm_compute. repeat split. discriminate. Qed.

(** C3, amended.  After any sequence of [play] and [reset_score] calls from
    the initial state, [total_rounds] is the sum of the three other
    counters, no exception has left a handler, and the statistics line
    shows "0.0%" when [total_rounds] is zero and otherwise the [.1f]
    rendering of the binary64 value [(player_score / total_rounds) * 100]. *)
Theorem tally_and_win_rate (cs : list call) :
  let st := fst (run initial cs) in
  total_rounds st = player_score st + computer_score st + ties st /\
  existsb is_uncaught (snd (run initial cs)) = false /\
  if total_rounds st =? 0 then
    detailed_stats_var st = stats_line 0 0 0 0 "0.0"
  else
    exists q h : float,
      int_true_divide (player_score st) (total_rounds st) = Ok q /\
      float_of_int 100 = Ok h /\
      detailed_stats_var st =
      stats_line (player_score st) (computer_score st) (ties st) (total_rounds st)
                 (format_1f (float_mul q h)).
Proof.
  destruct (run_tally cs initial initial_tally) as [[Hp Hc Ht Hn Hs] Hu].
  cbv zeta. split; [assumption|]. split; [assumption|].
  unfold _format_detailed_stats in Hs.
  destruct (Z.eqb_spec (total_rounds (fst (run initial cs))) 0) as [E|E].
  - injection Hs as <-. reflexivity.
  - destruct (win_rate_defined (fst (run initial cs))) as (q & Hq & Hw); [lia | lia |].
    rewrite Hw in Hs. cbn [bind] in Hs. injection Hs as <-.
    exists q, (S754_finite false 7036874417766400 (-46)).
    split; [assumption|]. split; reflexivity.
Qed.

End RPSFacts.

(* ================================================================== *)
(** * Further properties of calculator.py *)
(* ================================================================== *)
Module CalculatorLaws.
Import Py PyEval Calculator CalculatorSpec CalculatorFacts.

(** ** Sequences of presses *)

Lemma list_ascii_app (a b : string) :
  list_ascii_of_string (a ++ b) = (list_ascii_of_string a ++ list_ascii_of_string b)%list.
Proof. induction a as [|c a IH]; cbn; [reflexivity | now rewrite IH]. Qed.

Lemma presses_app (self : CalculatorApp) (a b : string) :
  presses self (a ++ b) = presses (presses self a) b.
Proof. unfold presses. now rewrite list_ascii_app, fold_left_app. Qed.

Lemma presses_cons (self : CalculatorApp) (c : ascii) (s : string) :
  presses self (String c s) = presses (on_button_click self c) s.
Proof. reflexivity. Qed.

(** X1.  Pressing C forgets everything before it: a sequence of presses
    with a C in it ends in the state its part after that C reaches from
    the initial state. *)
Theorem clear_forgets (self : CalculatorApp) (before after : string) :
  presses self (before ++ String "C" after) = presses __init__ after.
Proof. rewrite presses_app, presses_cons. reflexivity. Qed.

(** X2.  A digit pressed right after [=] starts a new entry, whether the
    evaluation succeeded or failed. *)
Theorem digit_after_evaluate (self : CalculatorApp) (d : ascii) :
  char_in d "0123456789" = true ->
  on_button_click (on_button_click self "=") d = mkApp (String d "") (String d "").
Proof.
  intros D. rewrite on_button_click_evaluate.
  destruct (eval (prepared (expression self))) as [v|e]; unfold on_button_click; rewrite D;
    cbn [expression input_var].
  - rewrite endswith_app, orb_true_r. reflexivity.
  - reflexivity.
Qed.

Lemma digit_after_evaluate_witness :
  on_button_click (on_button_click (mkApp "3+" "3+") "=") "7" = mkApp "7" "7" /\
  on_button_click (on_button_click (mkApp "3+4" "3+4") "=") "7" = mkApp "7" "7".
Proof.
  split.
  - apply (digit_after_evaluate (mkApp "3+" "3+") "7"). reflexivity.
  - apply (digit_after_evaluate (mkApp "3+4" "3+4") "7"). reflexivity.
Defined.

(** ** The display *)

Lemma on_button_click_display (self : CalculatorApp) (char : ascii) :
  display_ok self -> display_ok (on_button_click self char).
Proof.
  intros H. unfold on_button_click.
  destruct (char_in char "0123456789"); [now left|].
  destruct (char_in char operators).
  { destruct (last_char (expression self)) as [c|]; [|exact H].
    destruct (negb (char_in c operators)); [now left | exact H]. }
  destruct (Ascii.eqb char "C"); [right; left; auto|].
  destruct (Ascii.eqb char "="); [|exact H].
  destruct (eval (prepared (expression self))) as [v|e] eqn:E.
  - right. right. exists (expression self), v. auto.
  - right. left. auto.
Qed.

Lemma reachable_display (chars : string) : display_ok (presses __init__ chars).
Proof.
  unfold presses.
  assert (G : forall l self, display_ok self -> display_ok (fold_left on_button_click l self)).
  { induction l as [|c l IH]; intros self H; cbn [fold_left]; [exact H|].
    apply IH, on_button_click_display, H. }
  apply G. right. left. auto.
Qed.

(** X3.  Whatever is pressed, the display shows the expression itself, or
    "0" or "Error" over an empty expression, or the value of the
    expression that stands before a final "=". *)
Theorem display_invariant (chars : string) :
  input_var (presses __init__ chars) = expression (presses __init__ chars) \/
  (expression (presses __init__ chars) = "" /\
   (input_var (presses __init__ chars) = "0" \/ input_var (presses __init__ chars) = "Error")) \/
  (exists body v,
      expression (presses __init__ chars) = body ++ "=" /\
      eval (prepared body) = Ok v /\
      input_var (presses __init__ chars) = str v).
Proof. exact (reachable_display chars). Qed.

(** ** Where operators and the marker can stand *)

Lemma scan_append s t : forall p,
  scan p (s ++ t) =
  match scan p s with
  | Some q => scan q t
  | None => None
  end.
Proof.
  induction s as [|c s IH]; intros p; cbn [append scan]; [reflexivity|].
  destruct (advance p c); [apply IH | reflexivity].
Qed.

Lemma advance_operator p c q :
  advance p c = Some q -> char_in c operators = true -> q = Operator \/ q = OperatorAfter.
Proof.
  intros A O. unfold advance in A. rewrite (operator_not_digit c O), O in A.
  destruct p; inversion A; auto.
Qed.

Lemma advance_after_operator p c :
  p = Operator \/ p = OperatorAfter -> char_in c operators = true -> advance p c = None.
Proof.
  intros P O. unfold advance. rewrite (operator_not_digit c O), O.
  destruct P; subst; reflexivity.
Qed.

Lemma advance_start c q :
  advance Empty c = Some q -> char_in c "0123456789" = true.
Proof.
  unfold advance. destruct (char_in c "0123456789"); [reflexivity|].
  destruct (char_in c operators); [discriminate|].
  destruct (Ascii.eqb c "="); discriminate.
Qed.

(** X4.  No expression that can be reached starts with anything but a
    digit, and none holds two operators in a row. *)
Theorem operators_apart (chars : string) :
  (forall c s, expression (presses __init__ chars) = String c s ->
               char_in c "0123456789" = true) /\
  (forall s1 c1 c2 s2,
      expression (presses __init__ chars) = s1 ++ String c1 (String c2 s2) ->
      char_in c1 operators = true -> char_in c2 operators = true -> False).
Proof.
  pose proof (reachable_shape chars) as R.
  destruct (scan Empty (expression (presses __init__ chars))) as [q|] eqn:S; [clear R | congruence].
  split.
  - intros c s E. rewrite E in S. cbn [scan] in S.
    destruct (advance Empty c) as [p|] eqn:A; [|discriminate]. eapply advance_start, A.
  - intros s1 c1 c2 s2 E O1 O2. rewrite E, scan_append in S.
    destruct (scan Empty s1) as [p|]; [|discriminate]. cbn [scan] in S.
    destruct (advance p c1) as [p1|] eqn:A1; [|discriminate].
    rewrite (advance_after_operator p1 c2 (advance_operator _ _ _ A1 O1) O2) in S.
    discriminate.
Qed.

Lemma advance_keeps_marked p c q :
  advance p c = Some q -> marked p = true -> marked q = true.
Proof.
  unfold advance.
  destruct (char_in c "0123456789"); [destruct p; intros [= <-]; auto|].
  destruct (char_in c operators); [destruct p; intros [= <-]; auto|].
  destruct (Ascii.eqb c "="); [destruct p|]; discriminate.
Qed.

Lemma advance_equal p q : advance p "=" = Some q -> p = Digit /\ q = Marker.
Proof. destruct p; cbv; intros H; inversion H; auto. Qed.

Lemma scan_marked_no_equal s : forall p q,
  scan p s = Some q -> marked p = true -> ~ In "="%char (list_ascii_of_string s).
Proof.
  induction s as [|c s IH]; intros p q; cbn [scan list_ascii_of_string]; [auto|].
  destruct (advance p c) as [p'|] eqn:A; [|discriminate].
  intros S M [->|I].
  - apply advance_equal in A. destruct A as [-> _]. discriminate.
  - exact (IH _ _ S (advance_keeps_marked _ _ _ A M) I).
Qed.

Lemma scan_keeps_marked s : forall p q,
  scan p s = Some q -> marked p = true -> marked q = true.
Proof.
  induction s as [|c s IH]; intros p q; cbn [scan]; [now intros [= <-]|].
  destruct (advance p c) as [p'|] eqn:A; [|discriminate].
  intros S M. exact (IH _ _ S (advance_keeps_marked _ _ _ A M)).
Qed.

Lemma scan_equal_marked s : forall p q,
  scan p s = Some q -> In "="%char (list_ascii_of_string s) -> marked q = true.
Proof.
  induction s as [|c s IH]; intros p q; cbn [scan list_ascii_of_string]; [intros _ []|].
  destruct (advance p c) as [p'|] eqn:A; [|discriminate].
  intros S [->|I]; [|exact (IH _ _ S I)].
  apply advance_equal in A. destruct A as [_ ->]. exact (scan_keeps_marked _ _ _ S eq_refl).
Qed.

Lemma advance_marker c q : advance Marker c = Some q -> char_in c operators = true.
Proof.
  unfold advance. destruct (char_in c "0123456789"); [discriminate|].
  destruct (char_in c operators); [reflexivity|].
  destruct (Ascii.eqb c "="); discriminate.
Qed.

(** X5.  Wherever a reachable expression holds "=", there is no other "="
    before or after it, the character before it is a digit, and what
    follows it, if anything, starts with an operator. *)
Theorem marker_context (chars s1 s2 : string) :
  expression (presses __init__ chars) = s1 ++ String "=" s2 ->
  ~ In "="%char (list_ascii_of_string s1) /\
  ~ In "="%char (list_ascii_of_string s2) /\
  (exists c, last_char s1 = Some c /\ char_in c "0123456789" = true) /\
  (s2 = "" \/ exists c s, s2 = String c s /\ char_in c operators = true).
Proof.
  intros E. pose proof (reachable_shape chars) as R. rewrite E, scan_append in R.
  destruct (scan Empty s1) as [p|] eqn:S1; [|congruence]. cbn [scan] in R.
  destruct (advance p "=") as [p1|] eqn:A; [|congruence].
  apply advance_equal in A. destruct A as [-> ->].
  destruct (scan Marker s2) as [q|] eqn:S2; [clear R | congruence].
  split; [|split; [|split]].
  - intros I. pose proof (scan_equal_marked _ _ _ S1 I). discriminate.
  - exact (scan_marked_no_equal _ _ _ S2 eq_refl).
  - exact (scan_ends _ _ S1).
  - destruct s2 as [|c s]; [now left | right]. exists c, s. split; [reflexivity|].
    cbn [scan] in S2. destruct (advance Marker c) as [p'|] eqn:A; [|discriminate].
    eapply advance_marker, A.
Qed.

Lemma marker_context_witness :
  ~ In "="%char (list_ascii_of_string "1+2") /\
  ~ In "="%char (list_ascii_of_string "+4") /\
  (exists c, last_char "1+2" = Some c /\ char_in c "0123456789" = true) /\
  ("+4" = "" \/ exists c s, "+4" = String c s /\ char_in c operators = true).
Proof. apply (marker_context "1+2=+4" "1+2" "+4"). reflexivity. Defined.

(** ** A marker left behind *)

Lemma In_append_l c a b :
  In c (list_ascii_of_string a) -> In c (list_ascii_of_string (a ++ b)).
Proof. rewrite list_ascii_app. intros H. apply in_or_app. now left. Qed.

Lemma endswith_app_other s c d : Ascii.eqb c d = false -> endswith (s ++ String c "") d = false.
Proof. intros H. unfold endswith. now rewrite last_char_app. Qed.

Lemma digit_or_operator_not_equal c : digit_or_operator c = true -> Ascii.eqb c "=" = false.
Proof.
  unfold digit_or_operator. intros H. apply orb_prop in H. destruct H as [D|O].
  - rewrite char_in_digit in D. destruct (Ascii.eqb_spec c "=") as [->|]; [discriminate | reflexivity].
  - apply (operator_not_control c O).
Qed.

Lemma stale_not_zero self : stale self -> String.eqb (input_var self) "0" = false.
Proof.
  intros (D & I & _). rewrite D. apply String.eqb_neq. intros Z. rewrite Z in I.
  cbn in I. destruct I as [I|[]]. discriminate I.
Qed.

Lemma on_button_click_stale self c :
  digit_or_operator c = true -> stale self -> stale (on_button_click self c).
Proof.
  intros K H. pose proof (digit_or_operator_not_equal c K) as NE.
  pose proof (stale_not_zero self H) as NZ. destruct H as (D & I & W).
  assert (A : stale (mkApp (expression self ++ String c "") (expression self ++ String c ""))).
  { split; [reflexivity|]. cbn [expression]. split; [now apply In_append_l|].
    now apply endswith_app_other. }
  unfold on_button_click. destruct (char_in c "0123456789") eqn:Dg.
  - rewrite NZ, W. exact A.
  - unfold digit_or_operator in K. rewrite Dg in K. cbn [orb] in K. rewrite K.
    destruct (last_char (expression self)) as [l|]; [|now split].
    destruct (negb (char_in l operators)); [exact A | now split].
Qed.

(** X6.  Once an operator has been pressed behind the marker, the marker
    stays inside the expression, and not at its end, through every further
    digit and operator, and the next [=] can only show "Error". *)
Theorem marker_poisons (chars keys : string) :
  In "="%char (list_ascii_of_string (expression (presses __init__ chars))) ->
  endswith (expression (presses __init__ chars)) "=" = false ->
  forallb digit_or_operator (list_ascii_of_string keys) = true ->
  In "="%char (list_ascii_of_string (expression (presses (presses __init__ chars) keys))) /\
  endswith (expression (presses (presses __init__ chars) keys)) "=" = false /\
  input_var (presses (presses __init__ chars) keys) =
    expression (presses (presses __init__ chars) keys) /\
  on_button_click (presses (presses __init__ chars) keys) "=" = mkApp "" "Error".
Proof.
  intros I W K.
  assert (S : stale (presses __init__ chars)).
  { split; [|now split].
    destruct (reachable_display chars) as [D | [[Z _] | (body & v & B & _)]]; [exact D | |].
    - rewrite Z in I. destruct I.
    - rewrite B, endswith_app in W. discriminate. }
  assert (G : forall l self, forallb digit_or_operator l = true -> stale self ->
                        stale (fold_left on_button_click l self)).
  { induction l as [|c l IH]; intros self F H; cbn [fold_left]; [exact H|].
    cbn [forallb] in F. apply andb_prop in F. destruct F as [F1 F2].
    apply IH; [exact F2 | now apply on_button_click_stale]. }
  destruct (G _ _ K S) as (D' & I' & W').
  split; [exact I'|]. split; [exact W'|]. split; [exact D'|].
  apply evaluate_marker. exact I'.
Qed.

Lemma marker_poisons_witness :
  expression (presses (presses __init__ "1+2=+") "4+56") = "1+2=+4+56" /\
  on_button_click (presses (presses __init__ "1+2=+") "4+56") "=" = mkApp "" "Error".
Proof.
  assert (I : In "="%char (list_ascii_of_string (expression (presses __init__ "1+2=+")))).
  { cbn. right. right. right. left. reflexivity. }
  destruct (marker_poisons "1+2=+" "4+56" I eq_refl eq_refl) as (_ & _ & _ & E).
  split; [reflexivity | exact E].
Defined.

(** ** Evaluating an unfinished expression *)

(** X7.  An expression that is empty or ends with an operator cannot be
    evaluated: pressing [=] shows "Error" and empties the expression. *)
Theorem evaluate_unfinished (self : CalculatorApp) :
  expression self = "" \/
  (exists c, last_char (expression self) = Some c /\ char_in c operators = true) ->
  on_button_click self "=" = mkApp "" "Error".
Proof.
  intros [E | (c & L & O)]; [now apply evaluate_empty | eapply evaluate_trailing_operator; eauto].
Qed.

Lemma evaluate_unfinished_witness :
  on_button_click __init__ "=" = mkApp "" "Error" /\
  on_button_click (presses __init__ (String "3" (String times ""))) "=" = mkApp "" "Error".
Proof.
  split.
  - apply (evaluate_unfinished __init__). now left.
  - apply (evaluate_unfinished (presses __init__ (String "3" (String times "")))).
    right. exists times. split; reflexivity.
Defined.

(** ** Typing an expression *)

Lemma is_number_cons c n :
  is_number (String c n) = true ->
  char_in c "0123456789" = true /\
  forallb (fun c => char_in c "0123456789") (list_ascii_of_string n) = true.
Proof. unfold is_number. cbn. apply andb_prop. Qed.

Lemma digit_not_equal c : char_in c "0123456789" = true -> Ascii.eqb c "=" = false.
Proof. intros D. apply digit_or_operator_not_equal. unfold digit_or_operator. now rewrite D. Qed.

Lemma append_not_zero s c : s <> "" -> String.eqb (s ++ String c "") "0" = false.
Proof.
  intros N. apply String.eqb_neq. destruct s as [|a [|b s]]; [now destruct N | discriminate..].
Qed.

(** Digits typed behind a text on display that is not "0" and does not end
    with the marker are appended. *)
Lemma press_digits n : forall s,
  forallb (fun c => char_in c "0123456789") (list_ascii_of_string n) = true ->
  String.eqb s "0" = false -> endswith s "=" = false -> s <> "" ->
  presses (mkApp s s) n = mkApp (s ++ n) (s ++ n).
Proof.
  induction n as [|d n IH]; intros s D Z W N.
  - now rewrite append_nil_r.
  - cbn [list_ascii_of_string forallb] in D. apply andb_prop in D. destruct D as [D1 D2].
    rewrite presses_cons. unfold on_button_click at 1. cbn [expression input_var].
    rewrite D1, Z, W. cbn [orb].
    rewrite IH; [now rewrite append_assoc | exact D2 | now apply append_not_zero | |].
    + apply endswith_app_other, digit_not_equal, D1.
    + destruct s; discriminate.
Qed.

Lemma last_char_digits s n :
  n <> "" -> forallb (fun c => char_in c "0123456789") (list_ascii_of_string n) = true ->
  exists c, last_char (s ++ n) = Some c /\ char_in c "0123456789" = true.
Proof.
  intros N D. destruct (string_rev_cases n) as [->|(n0 & c & ->)]; [now destruct N|].
  exists c. rewrite <- append_assoc, last_char_app. split; [reflexivity|].
  rewrite list_ascii_app, forallb_app in D. apply andb_prop in D. destruct D as [_ D].
  cbn in D. now rewrite andb_true_r in D.
Qed.

Lemma glyph_operator op : char_in (glyph op) operators = true.
Proof. destruct op; reflexivity. Qed.

Lemma press_rest rest : forall s,
  forallb number_step rest = true ->
  (exists c, last_char s = Some c /\ char_in c "0123456789" = true) ->
  presses (mkApp s s) (render_rest rest) = mkApp (s ++ render_rest rest) (s ++ render_rest rest).
Proof.
  induction rest as [|[op n] rest IH]; intros s R (c & L & D).
  - cbn [render_rest]. now rewrite append_nil_r.
  - cbn [forallb] in R. apply andb_prop in R. destruct R as [N R].
    unfold number_step in N. cbn [snd] in N. destruct (is_number_digits _ N) as [NE ND].
    cbn [render_rest]. rewrite presses_cons. unfold on_button_click at 1.
    rewrite (operator_not_digit _ (glyph_operator op)), (glyph_operator op).
    cbn [expression]. rewrite L, (digit_not_operator c D). cbn [negb].
    rewrite presses_app, press_digits; [| exact ND | | |].
    + rewrite IH; [| exact R | now apply last_char_digits].
      now rewrite !append_assoc.
    + apply append_not_zero. intros ->. discriminate.
    + apply endswith_app_other. destruct op; reflexivity.
    + destruct s; discriminate.
Qed.

Lemma first_digit d :
  char_in d "0123456789" = true ->
  on_button_click __init__ d = mkApp (String d "") (String d "").
Proof. intros D. unfold on_button_click. rewrite D. reflexivity. Qed.

(** X8.  Typing an expression from the initial state leaves exactly that
    expression, on display as well: the first operand is 0 or starts with
    a digit other than 0, each operator is followed by one or more
    digits. *)
Theorem typed_as_shown (first : string) (rest : list (arith_op * string)) :
  typed_first first = true ->
  forallb number_step rest = true ->
  presses __init__ (render first rest) = mkApp (render first rest) (render first rest).
Proof.
  unfold typed_first, render. intros T R. apply andb_prop in T. destruct T as [N T].
  destruct first as [|d ds]; [discriminate|].
  destruct (is_number_cons _ _ N) as [D Ds].
  assert (F : presses __init__ (String d ds) = mkApp (String d ds) (String d ds)).
  { rewrite presses_cons, (first_digit d D).
    destruct (Ascii.eqb_spec d "0") as [->|NZ].
    - destruct ds; [reflexivity | discriminate].
    - rewrite press_digits; [reflexivity | exact Ds | | | discriminate].
      + apply String.eqb_neq. intros [= ->]. now destruct NZ.
      + exact (digit_not_equal d D). }
  rewrite presses_app, F.
  apply press_rest; [exact R|].
  apply (last_char_digits "" (String d ds)); [discriminate|].
  cbn [list_ascii_of_string forallb]. now rewrite D.
Qed.

Lemma typed_as_shown_witness :
  presses __init__ (render "0" [(Times, "007"); (Minus, "12")]) =
  mkApp (render "0" [(Times, "007"); (Minus, "12")]) (render "0" [(Times, "007"); (Minus, "12")]).
Proof. apply (typed_as_shown "0" [(Times, "007"); (Minus, "12")]); reflexivity. Defined.

(** ** Digits that replace *)

(** X17.  A 0 typed first is dropped as soon as another digit follows:
    the presses 0, d, ... end where the presses d, ... end. *)
Theorem leading_zero_dropped (d : ascii) (s : string) :
  char_in d "0123456789" = true ->
  presses __init__ (String "0" (String d s)) = presses __init__ (String d s).
Proof.
  intros D. rewrite !presses_cons, (first_digit d D).
  replace (on_button_click (on_button_click __init__ "0") d)
    with (mkApp (String d "") (String d "")); [reflexivity|].
  unfold on_button_click at 1. rewrite D. reflexivity.
Qed.

Lemma leading_zero_dropped_witness :
  presses __init__ "007+1" = mkApp "7+1" "7+1".
Proof.
  rewrite (leading_zero_dropped "0" "7+1" eq_refl).
  rewrite (leading_zero_dropped "7" "+1" eq_refl). reflexivity.
Defined.

(** X18.  A digit never wipes an entry in progress.  In a reachable state
    a digit press makes the digit the whole expression when the expression
    is the single digit 0 or ends with the "=" marker, and appends the
    digit otherwise (to an empty expression too); the display shows the
    new expression. *)
Theorem digit_appends_or_starts (chars : string) (d : ascii) :
  char_in d "0123456789" = true ->
  (expression (presses __init__ chars) = "0" \/
   endswith (expression (presses __init__ chars)) "=" = true ->
   on_button_click (presses __init__ chars) d = mkApp (String d "") (String d "")) /\
  (expression (presses __init__ chars) <> "0" ->
   endswith (expression (presses __init__ chars)) "=" = false ->
   on_button_click (presses __init__ chars) d =
   mkApp (expression (presses __init__ chars) ++ String d "")
         (expression (presses __init__ chars) ++ String d "")).
Proof.
  intros D. pose proof (reachable_display chars) as R.
  unfold on_button_click. rewrite D. split.
  - intros [Z | W]; [|now rewrite W, orb_true_r].
    destruct R as [E | [[E _] | (body & v & B & _)]].
    + rewrite E, Z. reflexivity.
    + rewrite E in Z. discriminate Z.
    + rewrite B in Z. destruct body as [|c [|c' body]]; discriminate Z.
  - intros NZ W. rewrite W, orb_false_r.
    destruct (String.eqb_spec (input_var (presses __init__ chars)) "0") as [Z|_]; [|reflexivity].
    destruct R as [E | [[E _] | (body & v & B & _)]].
    + rewrite <- E in NZ. contradiction.
    + rewrite E. reflexivity.
    + rewrite B, endswith_app in W. discriminate W.
Qed.

Lemma digit_appends_or_starts_witness :
  on_button_click (presses __init__ "0") "5" = mkApp "5" "5" /\
  on_button_click (presses __init__ "5-5=") "7" = mkApp "7" "7" /\
  on_button_click (presses __init__ "12+0") "5" = mkApp "12+05" "12+05".
Proof.
  split; [|split].
  - apply (proj1 (digit_appends_or_starts "0" "5" eq_refl)). now left.
  - apply (proj1 (digit_appends_or_starts "5-5=" "7" eq_refl)). now right.
  - apply (proj2 (digit_appends_or_starts "12+0" "5" eq_refl)); [discriminate | reflexivity].
Defined.

End CalculatorLaws.

(* ================================================================== *)
(** * Further properties of rock_paper_scissors.py *)
(* ================================================================== *)
Module RPSLaws.
Import Py RPS RPSSpec RPSFacts.

(** ** [decide_winner] on any two strings *)

Lemma to_lower_idempotent c : to_lower (to_lower c) = to_lower c.
Proof. destruct c as [[] [] [] [] [] [] [] []]; reflexivity. Qed.

Lemma lower_idempotent s : lower (lower s) = lower s.
Proof. induction s as [|c s IH]; cbn; [reflexivity | now rewrite to_lower_idempotent, IH]. Qed.

Lemma decide_winner_lower a b : decide_winner (lower a) (lower b) = decide_winner a b.
Proof. unfold decide_winner. now rewrite !lower_idempotent. Qed.

Lemma decide_winner_range a b :
  decide_winner a b = "tie" \/ decide_winner a b = "win" \/ decide_winner a b = "lose".
Proof.
  unfold decide_winner. destruct (String.eqb (lower a) (lower b)); [now left|].
  destruct (get_equals _ _); auto.
Qed.

(** X9.  Letter case does not matter: two strings that are valid choices
    once lowered tie exactly when they are the same choice, and the first
    wins exactly when its choice beats the other's in the cyclic table. *)
Theorem decide_winner_any_case (a b : string) :
  In (lower a) CHOICES -> In (lower b) CHOICES ->
  (decide_winner a b = "tie" <-> lower a = lower b) /\
  (decide_winner a b = "win" <-> beats (lower a) (lower b)) /\
  (decide_winner a b = "lose" <-> beats (lower b) (lower a)).
Proof.
  intros Ha Hb. rewrite <- (decide_winner_lower a b).
  choice_cases Ha; choice_cases Hb; rewrite Ha, Hb; cbv [beats];
    (split; [|split]); split; intros H;
    try reflexivity; try discriminate H;
    try (vm_compute in H; discriminate H);
    try (intuition congruence);
    try (vm_compute; reflexivity);
    try (left; split; reflexivity);
    try (right; left; split; reflexivity);
    try (right; right; split; reflexivity).
Qed.

Lemma decide_winner_any_case_witness :
  (decide_winner "ROCK" "Scissors" = "tie" <-> lower "ROCK" = lower "Scissors") /\
  (decide_winner "ROCK" "Scissors" = "win" <-> beats (lower "ROCK") (lower "Scissors")) /\
  (decide_winner "ROCK" "Scissors" = "lose" <-> beats (lower "Scissors") (lower "ROCK")).
Proof. apply (decide_winner_any_case "ROCK" "Scissors"); cbn; auto. Defined.

Lemma dict_get_wins_over p v :
  dict_get wins_over p = Some v -> In p CHOICES /\ In v CHOICES.
Proof.
  unfold wins_over. cbn [dict_get].
  destruct (String.eqb_spec p "rock") as [->|_]; [intros [= <-]; cbn; auto|].
  destruct (String.eqb_spec p "paper") as [->|_]; [intros [= <-]; cbn; auto|].
  destruct (String.eqb_spec p "scissors") as [->|_]; [intros [= <-]; cbn; auto 6|].
  discriminate.
Qed.

(** X10.  On ASCII text, a string that is not a valid choice, on either
    side, never makes a win: the result is "tie" when the two strings are
    equal up to case and "lose" otherwise. *)
Theorem decide_winner_unknown (a b : string) :
  is_ascii a = true -> is_ascii b = true ->
  ~ In (lower a) CHOICES \/ ~ In (lower b) CHOICES ->
  decide_winner a b = if String.eqb (lower a) (lower b) then "tie" else "lose".
Proof.
  intros _ _ H. unfold decide_winner.
  destruct (String.eqb (lower a) (lower b)); [reflexivity|].
  destruct (dict_get wins_over (lower a)) as [v|] eqn:G; [|reflexivity].
  destruct (dict_get_wins_over _ _ G) as [Va Vv]. cbn [get_equals].
  destruct (String.eqb_spec v (lower b)) as [E|_]; [|reflexivity].
  rewrite <- E in H. destruct H as [H|H]; contradiction.
Qed.

Lemma decide_winner_unknown_witness :
  decide_winner "lizard" "rock" = "lose" /\
  decide_winner "rock" "well" = "lose" /\
  decide_winner "Spock" "spock" = "tie".
Proof.
  split; [|split].
  - apply (decide_winner_unknown "lizard" "rock" eq_refl eq_refl). left. cbn. intuition discriminate.
  - apply (decide_winner_unknown "rock" "well" eq_refl eq_refl). right. cbn. intuition discriminate.
  - apply (decide_winner_unknown "Spock" "spock" eq_refl eq_refl). left. cbn. intuition discriminate.
Defined.

(** X11.  Against a valid choice each of the three outcomes comes from
    exactly one of the computer's three choices. *)
Theorem each_outcome_once (a o : string) :
  In a CHOICES -> In o ["win"; "lose"; "tie"] ->
  exists b, In b CHOICES /\ decide_winner a b = o /\
            forall b', In b' CHOICES -> decide_winner a b' = o -> b' = b.
Proof.
  intros Ha Ho. cbn in Ho. destruct Ho as [<- | [<- | [<- | []]]]; choice_cases Ha.
  1: exists "scissors". 2: exists "rock". 3: exists "paper".
  4: exists "paper". 5: exists "scissors". 6: exists "rock".
  7: exists "rock". 8: exists "paper". 9: exists "scissors".
  all: split; [cbn; auto|]; split; [reflexivity|].
  all: intros b' Hb D; choice_cases Hb; try reflexivity; vm_compute in D; discriminate D.
Qed.

Lemma each_outcome_once_witness :
  exists b, In b CHOICES /\ decide_winner "paper" b = "lose" /\
            forall b', In b' CHOICES -> decide_winner "paper" b' = "lose" -> b' = b.
Proof. apply (each_outcome_once "paper" "lose"); cbn; auto. Defined.

(** ** One round *)

(** The counters and the labels after a round with a valid choice, whether
    or not the statistics line could be formatted. *)
Lemma play_valid_fields (st : RPSApp) (player_choice : string) (r : nat) :
  In player_choice CHOICES ->
  let o := decide_winner player_choice (random_choice r CHOICES) in
  let st' := fst (play st player_choice r) in
  total_rounds st' = total_rounds st + 1 /\
  player_score st' = player_score st + bump (String.eqb o "win") /\
  computer_score st' = computer_score st + bump (String.eqb o "lose") /\
  ties st' = ties st + bump (String.eqb o "tie") /\
  score_var st' = _format_score st' /\
  computer_var st' = "Computer chose: " ++ title (random_choice r CHOICES) /\
  result_var st' =
    (if String.eqb o "win" then "You win this round! 🎉"
     else if String.eqb o "lose" then "You lose this round. 😢"
     else "It's a tie. 😐") /\
  (snd (play st player_choice r) = [] \/ exists e, snd (play st player_choice r) = [uncaught e]).
Proof.
  intros V. apply str_in_In in V. cbv zeta. unfold play. rewrite V. cbn [negb].
  unfold update_detailed_stats.
  destruct (decide_winner_range player_choice (random_choice r CHOICES)) as [D | [D | D]];
    rewrite D; cbn [String.eqb Ascii.eqb Bool.eqb andb bump];
    match goal with |- context [_format_detailed_stats ?s] =>
      destruct (_format_detailed_stats s) end;
    cbn [fst snd player_score computer_score ties total_rounds score_var computer_var result_var
         set_counters set_result_var set_computer_var set_score_var set_detailed_stats_var
         _format_score];
    repeat split; try lia; eauto.
Qed.



(** ** The counters over a whole game *)

Lemma count_outcome_app o rounds c :
  count_outcome o (rounds ++ [c]) = count_outcome o rounds + bump (String.eqb (outcome_of c) o).
Proof.
  unfold count_outcome. rewrite filter_app, length_app. cbn [filter].
  destruct (String.eqb (outcome_of c) o); cbn [List.length bump]; lia.
Qed.

Lemma play_invalid_state (st : RPSApp) (player_choice : string) (r : nat) :
  str_in player_choice CHOICES = false -> fst (play st player_choice r) = st.
Proof. intros H. unfold play. rewrite H. reflexivity. Qed.

Lemma handle_counted (st : RPSApp) (rounds : list call) (c : call) :
  counted st rounds ->
  counted (fst (handle st c)) (rounds_since_reset rounds [c]).
Proof.
  intros [P C T N]. destruct c as [pc r|]; cbn [handle rounds_since_reset fold_left].
  - destruct (str_in pc CHOICES) eqn:V.
    + apply str_in_In in V.
      destruct (play_valid_fields st pc r V) as (T' & P' & C' & I' & _).
      constructor; rewrite ?count_outcome_app; cbn [outcome_of];
        rewrite ?length_app; cbn [List.length]; lia.
    + rewrite (play_invalid_state st pc r V). now constructor.
  - constructor; reflexivity.
Qed.

Lemma run_counted (cs : list call) : forall st rounds,
  counted st rounds -> counted (fst (run st cs)) (rounds_since_reset rounds cs).
Proof.
  induction cs as [|c cs IH]; intros st rounds H; [exact H|].
  cbn [run]. pose proof (handle_counted st rounds c H) as H1.
  destruct (handle st c) as [st1 out1]. cbn [fst] in H1.
  specialize (IH st1 _ H1). destruct (run st1 cs) as [st2 out2]. exact IH.
Qed.

(** X13.  At any point of a game each counter is a count over the rounds
    with a valid choice played since the last reset: the wins, the losses
    and the ties among them, and their number. *)
Theorem counters_count_rounds (cs : list call) :
  let st := fst (run initial cs) in
  let rounds := rounds_since_reset [] cs in
  player_score st = count_outcome "win" rounds /\
  computer_score st = count_outcome "lose" rounds /\
  ties st = count_outcome "tie" rounds /\
  total_rounds st = Z.of_nat (List.length rounds).
Proof.
  destruct (run_counted cs initial []) as [P C T N]; [constructor; reflexivity|].
  cbv zeta. auto.
Qed.

(** ** The labels *)

Lemma handle_labelled (st : RPSApp) (c : call) :
  labelled st -> labelled (fst (handle st c)).
Proof.
  intros H. destruct c as [pc r|]; cbn [handle].
  - destruct (str_in pc CHOICES) eqn:V; [|now rewrite (play_invalid_state st pc r V)].
    apply str_in_In in V.
    destruct (play_valid_fields st pc r V) as (_ & _ & _ & _ & S & M & R & _).
    constructor; [exact S | |].
    + rewrite R. destruct (String.eqb _ "win"); [cbn; auto 6|].
      destruct (String.eqb _ "lose"); cbn; auto 6.
    + rewrite M. pose proof (random_choice_valid r) as X. choice_cases X; rewrite X; cbn; auto.
  - constructor; cbn; auto.
Qed.

(** X14.  Throughout a game the score line is the one formatted from the
    current counters, the round-result label holds one of its five texts
    and the computer-move label its placeholder or one of the three
    capitalised choices. *)
Theorem labels_invariant (cs : list call) :
  let st := fst (run initial cs) in
  score_var st = _format_score st /\
  In (result_var st) result_texts /\
  In (computer_var st) computer_texts.
Proof.
  assert (G : forall l st, labelled st -> labelled (fst (run st l))).
  { induction l as [|c l IH]; intros st H; [exact H|]. cbn [run].
    pose proof (handle_labelled st c H) as H1.
    destruct (handle st c) as [st1 out1]. cbn [fst] in H1.
    specialize (IH st1 H1). destruct (run st1 l) as [st2 out2]. exact IH. }
  destruct (G cs initial) as [S R C]; [constructor; cbn; auto|].
  cbv zeta. auto.
Qed.

(** ** The bindings *)

Lemma binding_valid ev choice : binding ev = call_play choice -> In choice CHOICES.
Proof. destruct ev; intros [= <-]; cbn; auto. Qed.

Lemma play_valid_silent (st : RPSApp) (player_choice : string) (r : nat) :
  In player_choice CHOICES -> tally st ->
  tally (fst (play st player_choice r)) /\ snd (play st player_choice r) = [].
Proof.
  intros V H. destruct (play_tally st player_choice r H) as [T U].
  split; [exact T|].
  destruct (play_valid_fields st player_choice r V) as (_ & _ & _ & _ & _ & _ & _ & [E | [e E]]);
    [exact E|]. rewrite E in U. discriminate U.
Qed.

Lemma mainloop_silent (events : list (ui_event * nat)) : forall st,
  tally st -> tally (fst (mainloop st events)) /\ snd (mainloop st events) = [].
Proof.
  induction events as [|[ev r] events IH]; intros st H; cbn [mainloop]; [now split|].
  destruct (binding ev) as [choice| |] eqn:B; [| |now split].
  - destruct (play_valid_silent st choice r (binding_valid _ _ B) H) as [T E].
    destruct (play st choice r) as [st1 out1]. cbn [fst snd] in T, E. subst out1.
    specialize (IH st1 T). destruct (mainloop st1 events) as [st2 out2]. exact IH.
  - destruct (reset_score_tally st) as [T E].
    destruct (reset_score st) as [st1 out1]. cbn [fst snd] in T, E. subst out1.
    specialize (IH st1 T). destruct (mainloop st1 events) as [st2 out2]. exact IH.
Qed.

(** X15.  Every button and key binding passes a valid choice, so however
    the window is used the "Invalid move" dialog never appears and no
    handler fails; the tally stays consistent up to the moment of
    quitting. *)
Theorem bindings_never_fail (events : list (ui_event * nat)) :
  snd (mainloop initial events) = [] /\
  total_rounds (fst (mainloop initial events)) =
  player_score (fst (mainloop initial events)) +
  computer_score (fst (mainloop initial events)) + ties (fst (mainloop initial events)).
Proof.
  destruct (mainloop_silent events initial initial_tally) as [[_ _ _ N _] E].
  split; [exact E | exact N].
Qed.

(** ** The win rate at its two ends *)





(** ** Resetting *)

Lemma run_app (st : RPSApp) (a b : list call) :
  fst (run st (a ++ b)) = fst (run (fst (run st a)) b).
Proof.
  revert st. induction a as [|c a IH]; intros st; [reflexivity|].
  cbn [app run]. specialize (IH (fst (handle st c))).
  destruct (handle st c) as [st1 out1]. cbn [fst] in IH.
  destruct (run st1 (a ++ b)) as [st2 out2]. destruct (run st1 a) as [st3 out3].
  exact IH.
Qed.

(** X19.  A reset forgets the game so far: whatever the state and the
    calls before it, the state after the calls that follow a reset is the
    one they give after a reset at start-up. *)
Theorem reset_forgets (st : RPSApp) (before after : list call) :
  fst (run st (before ++ Reset :: after)) = fst (run initial (Reset :: after)).
Proof.
  rewrite run_app. cbn [run handle].
  change (reset_score (fst (run st before))) with (reset_score initial).
  reflexivity.
Qed.

End RPSLaws.
